(** * Indie blog crawler: URL identity, frontier queue, fetcher and classifiers

    A shallow embedding of the crawl core of the repository
    (scripts/utils.py, scripts/detectors.py, scripts/scraper.py,
    scripts/fast_scraper.py, scripts/deduplicate.py,
    scripts/dedupe_data.py, and the link extractor of
    scripts/discover_friends.py) together with the properties its
    specification states about it and further properties of the code.

    Conventions of the embedding.
    - A Python [str] is a [string]: a sequence of bytes holding the UTF-8
      encoding of the text.  [lower], [strip] and the character classes of
      the regular expressions act on ASCII, as Python does on ASCII text;
      Python's treatment of cased or blank characters beyond ASCII is not
      modelled.
    - A Python exception that leaves a function is a [Raise] result.
    - [urlsplit], [urlparse], [urlunsplit] and [urljoin] follow CPython's
      urllib.parse.  Releases from 3.11.4 on additionally validate the text
      between square brackets of an authority as an IP literal; that
      validation is not modelled, so the model accepts a superset of the
      bracketed authorities CPython accepts and agrees with it elsewhere.
      The check of a non-ASCII authority under NFKC normalization is not
      modelled either. *)

From Stdlib Require Import ZArith Lia Ascii.
From stdpp Require Import base option list strings gmap.

Local Open Scope char_scope.
Local Open Scope string_scope.
Local Open Scope list_scope.
Local Open Scope stdpp_scope.

(** ** Python results *)

Inductive exn :=
| ValueError (msg : string)
| AttributeError (msg : string).

Inductive result (A : Type) :=
| Ok (a : A)
| Raise (e : exn).
Arguments Ok {A} a.
Arguments Raise {A} e.

#[global] Instance result_ret : MRet result := fun A a => Ok a.
#[global] Instance result_bind : MBind result := fun A B f m =>
  match m with
  | Ok a => f a
  | Raise e => Raise e
  end.

(** ** Text primitives *)

Module Str.

Definition dq : ascii := ascii_of_nat 34.
Definition tab : ascii := ascii_of_nat 9.
Definition lf : ascii := ascii_of_nat 10.
Definition cr : ascii := ascii_of_nat 13.

Definition code (a : ascii) : N := N_of_ascii a.

Definition in_range (lo hi : N) (a : ascii) : bool :=
  ((lo <=? code a) && (code a <=? hi))%N.

Definition is_upper : ascii -> bool := in_range 65 90.
Definition is_lower : ascii -> bool := in_range 97 122.
Definition is_digit : ascii -> bool := in_range 48 57.
Definition is_alpha (a : ascii) : bool := is_upper a || is_lower a.

(** [str.isspace] on ASCII: tab, newline, vertical tab, form feed, carriage
    return, the four separators 0x1c..0x1f and the blank. *)
Definition is_space (a : ascii) : bool :=
  in_range 9 13 a || in_range 28 31 a || (code a =? 32)%N.

Definition lower_char (a : ascii) : ascii :=
  if is_upper a then ascii_of_N (code a + 32) else a.
Definition upper_char (a : ascii) : ascii :=
  if is_lower a then ascii_of_N (code a - 32) else a.

Definition eqc (a b : ascii) : bool := bool_decide (a = b).

(** [s.lower()] *)
Fixpoint lower (s : string) : string :=
  match s with
  | "" => ""
  | String a s' => String (lower_char a) (lower s')
  end.

(** [s.startswith(p)] *)
Fixpoint startswith (p s : string) {struct p} : bool :=
  match p with
  | "" => true
  | String a p' =>
      match s with
      | "" => false
      | String b s' => eqc a b && startswith p' s'
      end
  end.

(** [s[n:]] and [s[:n]] for a non-negative [n] *)
Fixpoint drop (n : nat) (s : string) : string :=
  match n, s with
  | 0, _ => s
  | S _, "" => ""
  | S n', String _ s' => drop n' s'
  end.
Fixpoint take (n : nat) (s : string) : string :=
  match n, s with
  | 0, _ => ""
  | S _, "" => ""
  | S n', String a s' => String a (take n' s')
  end.

(** [c in s] for a single character *)
Fixpoint has_char (c : ascii) (s : string) : bool :=
  match s with
  | "" => false
  | String a s' => eqc a c || has_char c s'
  end.

(** all characters of [s] satisfy [p] *)
Fixpoint all_chars (p : ascii -> bool) (s : string) : bool :=
  match s with
  | "" => true
  | String a s' => p a && all_chars p s'
  end.

(** The text before the first character satisfying [p], and the text from
    that character on (empty when there is none). *)
Fixpoint span (p : ascii -> bool) (s : string) : string * string :=
  match s with
  | "" => ("", "")
  | String a s' =>
      if p a then ("", s)
      else let '(l, r) := span p s' in (String a l, r)
  end.

(** [s.find(c)]: the index of the first [c], when there is one *)
Fixpoint find (c : ascii) (s : string) : option nat :=
  match s with
  | "" => None
  | String a s' => if eqc a c then Some 0 else S <$> find c s'
  end.

(** [s.split(c, 1)] as used after a test [c in s]: the text before the first
    [c] and the text after it; [(s, "")] when [c] does not occur. *)
Definition split1 (c : ascii) (s : string) : string * string :=
  let '(l, r) := span (eqc c) s in (l, drop 1 r).

(** The split of [s] after its last [c]: [Some (s[:i+1], s[i+1:])] for
    [i = s.rfind(c)], [None] when [c] does not occur. *)
Fixpoint rsplit_after (c : ascii) (s : string) : option (string * string) :=
  match s with
  | "" => None
  | String a s' =>
      match rsplit_after c s' with
      | Some (h, t) => Some (String a h, t)
      | None => if eqc a c then Some (String a "", s') else None
      end
  end.

(** [s.replace(c, "")] for each [c] satisfying [p] *)
Fixpoint remove_chars (p : ascii -> bool) (s : string) : string :=
  match s with
  | "" => ""
  | String a s' =>
      if p a then remove_chars p s' else String a (remove_chars p s')
  end.

(** [s.lstrip(chars)] and [s.rstrip(chars)], the set [chars] given by [p] *)
Fixpoint lstrip (p : ascii -> bool) (s : string) : string :=
  match s with
  | "" => ""
  | String a s' => if p a then lstrip p s' else s
  end.
Fixpoint rstrip (p : ascii -> bool) (s : string) : string :=
  match s with
  | "" => ""
  | String a s' =>
      match rstrip p s' with
      | "" => if p a then "" else String a ""
      | r => String a r
      end
  end.
(** [s.strip()] *)
Definition strip (s : string) : string := lstrip is_space (rstrip is_space s).

(** [s.endswith(x)] *)
Fixpoint endswith (x s : string) : bool :=
  match s with
  | "" => bool_decide (x = "")
  | String _ s' => bool_decide (x = s) || endswith x s'
  end.

(** [x in s] for a substring [x] *)
Fixpoint contains (x s : string) : bool :=
  match s with
  | "" => bool_decide (x = "")
  | String _ s' => startswith x s || contains x s'
  end.

(** [s.split(c)] *)
Fixpoint split (c : ascii) (s : string) : list string :=
  match s with
  | "" => [""]
  | String a s' =>
      match split c s' with
      | [] => [""]
      | w :: ws => if eqc a c then "" :: w :: ws else String a w :: ws
      end
  end.

(** [sep.join(l)] *)
Fixpoint join (sep : string) (l : list string) : string :=
  match l with
  | [] => ""
  | [w] => w
  | w :: ws => w +:+ sep +:+ join sep ws
  end.

End Str.
Import Str.

(** ** urllib.parse *)

Module Url.

Definition uses_relative : list string :=
  [""; "ftp"; "http"; "gopher"; "nntp"; "imap"; "wais"; "file"; "https";
   "shttp"; "mms"; "prospero"; "rtsp"; "rtsps"; "rtspu"; "sftp"; "svn";
   "svn+ssh"; "ws"; "wss"].

Definition uses_netloc : list string :=
  [""; "ftp"; "http"; "gopher"; "nntp"; "telnet"; "imap"; "wais"; "file";
   "mms"; "https"; "shttp"; "snews"; "prospero"; "rtsp"; "rtsps"; "rtspu";
   "rsync"; "svn"; "svn+ssh"; "sftp"; "nfs"; "git"; "git+ssh"; "ws"; "wss";
   "itms-services"].

Definition uses_params : list string :=
  [""; "ftp"; "hdl"; "prospero"; "http"; "imap"; "https"; "shttp"; "rtsp";
   "rtsps"; "rtspu"; "sip"; "sips"; "mms"; "sftp"; "tel"].

(** [x in l] for a list of strings *)
Definition mem (x : string) (l : list string) : bool := bool_decide (x ∈ l).

Definition is_scheme_char (a : ascii) : bool :=
  is_alpha a || is_digit a || eqc a "+" || eqc a "-" || eqc a ".".

(** the characters of [_WHATWG_C0_CONTROL_OR_SPACE] *)
Definition is_c0_or_space (a : ascii) : bool := (code a <=? 32)%N.

(** the characters of [_UNSAFE_URL_BYTES_TO_REMOVE] *)
Definition is_unsafe (a : ascii) : bool := eqc a tab || eqc a cr || eqc a lf.

Definition is_netloc_delim (a : ascii) : bool :=
  eqc a "/" || eqc a "?" || eqc a "#".

Record SplitResult := mkSplit {
  s_scheme : string;
  s_netloc : string;
  s_path : string;
  s_query : string;
  s_fragment : string }.

Record ParseResult := mkParse {
  scheme : string;
  netloc : string;
  path : string;
  params : string;
  query : string;
  fragment : string }.

(** [_splitnetloc(url, start)]: the authority runs from [start] to the
    earliest of the delimiters '/', '?' and '#', or to the end. *)
Definition splitnetloc (url : string) (start : nat) : string * string :=
  span is_netloc_delim (drop start url).

(** ['[' in netloc and ']' not in netloc or ']' in netloc and '[' not in netloc] *)
Definition unbalanced_brackets (netloc : string) : bool :=
  (has_char "[" netloc && negb (has_char "]" netloc))
  || (has_char "]" netloc && negb (has_char "[" netloc)).

(** The scheme test of [urlsplit]: [i = url.find(':')], [i > 0], the first
    character an ASCII letter, and every character before the colon a
    scheme character. *)
Definition split_scheme (url : string) : option (string * string) :=
  match find ":" url with
  | Some (S i) =>
      if all_chars is_alpha (take 1 url)
         && all_chars is_scheme_char (take (S i) url)
      then Some (lower (take (S i) url), drop (S (S i)) url)
      else None
  | _ => None
  end.

Definition urlsplit (url scheme : string) : result SplitResult :=
  let url := lstrip is_c0_or_space url in
  let scheme := lstrip is_c0_or_space (rstrip is_c0_or_space scheme) in
  let url := remove_chars is_unsafe url in
  let scheme := remove_chars is_unsafe scheme in
  let '(scheme, url) :=
    match split_scheme url with
    | Some (sch, rest) => (sch, rest)
    | None => (scheme, url)
    end in
  '(netloc, url) ←
    (if startswith "//" url then
       let '(netloc, rest) := splitnetloc url 2 in
       if unbalanced_brackets netloc
       then Raise (ValueError "Invalid IPv6 URL")
       else Ok (netloc, rest)
     else Ok ("", url));
  let '(url, fragment) :=
    if has_char "#" url then split1 "#" url else (url, "") in
  let '(url, query) :=
    if has_char "?" url then split1 "?" url else (url, "") in
  Ok (mkSplit scheme netloc url query fragment).

(** [_splitparams(url)], called when [';' in url] *)
Definition splitparams (url : string) : string * string :=
  match rsplit_after "/" url with
  | Some (h, t) =>
      if has_char ";" t
      then let '(l, r) := split1 ";" t in (h +:+ l, r)
      else (url, "")
  | None => split1 ";" url
  end.

Definition urlparse (url scheme : string) : result ParseResult :=
  r ← urlsplit url scheme;
  let '(url, params) :=
    if mem (s_scheme r) uses_params && has_char ";" (s_path r)
    then splitparams (s_path r)
    else (s_path r, "") in
  Ok (mkParse (s_scheme r) (s_netloc r) url params (s_query r) (s_fragment r)).

End Url.
Import Url.

(** ** scripts/utils.py: the site identity key *)

Definition normalize_url (url : string) : result string :=
  if bool_decide (url = "") then Ok ""
  else
    let url :=
      if startswith "http://" url || startswith "https://" url
      then url else "https://" +:+ url in
    parsed ← urlparse url "";
    let host := lower (netloc parsed) in
    let host := if startswith "www." host then drop 4 host else host in
    let path := rstrip (eqc "/") (path parsed) in
    Ok (scheme parsed +:+ "://" +:+ host +:+ path).


(** *** The shape of a key *)

(** The authority and the path [urlparse] finds in the text [r] that follows
    "http://" or "https://". *)
Definition http_authority (r : string) : string :=
  (span is_netloc_delim (remove_chars is_unsafe r)).1.

Definition http_path (r : string) : string :=
  let rest := (span is_netloc_delim (remove_chars is_unsafe r)).2 in
  let u := (split1 "?" (split1 "#" rest).1).1 in
  if has_char ";" u then (splitparams u).1 else u.

Definition strip_www (host : string) : string :=
  if startswith "www." host then drop 4 host else host.

(** What [normalize_url] answers for the scheme [sch] followed by "://" and
    [r], see [normalize_url_http]. *)
Definition http_key (sch r : string) : result string :=
  if unbalanced_brackets (http_authority r)
  then Raise (ValueError "Invalid IPv6 URL")
  else Ok (sch +:+ "://" +:+ strip_www (lower (http_authority r))
               +:+ rstrip (eqc "/") (http_path r)).

Definition is_http (sch : string) : Prop := sch = "http" ∨ sch = "https".

(** [k] is a key with an explicit http or https scheme *)
Definition http_keyed (k : string) : bool :=
  startswith "http://" k || startswith "https://" k.

(** the host that follows the scheme begins with "www." *)
Definition www_keyed (k : string) : bool :=
  startswith "http://www." k || startswith "https://www." k.

(** the authority of [r], lower-cased, begins with "www." *)
Definition host_www (r : string) : bool :=
  startswith "www." (lower (remove_chars is_unsafe r)).

(** [x] is an initial segment of [s] *)
Definition is_prefix (x s : string) : Prop := ∃ t, s = x +:+ t.

(** the characters other than [c] *)
Definition not_char (c : ascii) : ascii -> bool := fun a => negb (eqc c a).

(** the empty text or a single slash *)
Definition slash_or_empty (e : string) : Prop := e = "" ∨ e = "/".

(** [s] is empty or begins with a character satisfying [p] *)
Definition starts_with_or_empty (p : ascii -> bool) (s : string) : bool :=
  match s with "" => true | String a _ => p a end.

(** ** The persisted stores *)

(** A decoded JSON value. *)
#[local] Unset Elimination Schemes.
Inductive json :=
| JNull
| JBool (b : bool)
| JNum (n : Z)
| JStr (s : string)
| JList (l : list json)
| JObj (o : list (string * json)).
#[local] Set Elimination Schemes.

(** Python truth of a decoded value *)
Definition truthy (v : json) : bool :=
  match v with
  | JNull => false
  | JBool b => b
  | JNum n => negb (n =? 0)%Z
  | JStr s => negb (bool_decide (s = ""))
  | JList l => negb (bool_decide (l = []))
  | JObj o => negb (bool_decide (o = []))
  end.

(** A line of blogs.jsonl after [json.loads]: text that does not decode, a
    value that is no object, or a node record.  Blank lines are left out. *)
Inductive store_line :=
| Undecodable
| NotObject (v : json)
| Blog (b : gmap string json).

(** The files under DATA_DIR that the queue operations touch: the node store
    and the lines of queue.txt, each written with its line end (a missing
    file reads as no lines).  A key is a single line, see
    [normalize_url_single_line]. *)
Record files := mkFiles {
  blogs_jsonl : list store_line;
  queue_txt : list string }.

(** [blog.get(key, default)] *)
Definition get_default (b : gmap string json) (key : string) (d : json) : json :=
  default d (b !! key).

(** [normalize_url] applied to a decoded value: a falsy value gives the empty
    key, a string is normalized, any other value has no [startswith]. *)
Definition normalize_url_value (v : json) : result string :=
  match v with
  | JStr s => normalize_url s
  | _ => if truthy v
         then Raise (AttributeError "startswith")
         else Ok ""
  end.

(** scripts/utils.py, [load_seen_urls] *)
Fixpoint load_seen_urls_from (lines : list store_line) (seen : gset string)
  : result (gset string) :=
  match lines with
  | [] => Ok seen
  | Undecodable :: rest => load_seen_urls_from rest seen
  | NotObject _ :: _ => Raise (AttributeError "get")
  | Blog blog :: rest =>
      key ← normalize_url_value (get_default blog "url" (JStr ""));
      load_seen_urls_from rest ({[key]} ∪ seen)
  end.

Definition load_seen_urls (fs : files) : result (gset string) :=
  load_seen_urls_from (blogs_jsonl fs) ∅.

(** scripts/utils.py, [load_queue]:
    [[line.strip() for line in f if line.strip()]] *)
Definition load_queue (fs : files) : list string :=
  filter (fun l => l ≠ "") (strip <$> queue_txt fs).

(** scripts/utils.py, [save_queue] *)
Definition save_queue (urls : list string) (fs : files) : files :=
  mkFiles (blogs_jsonl fs) urls.

(** The loop of [add_to_queue]: [new_urls] grows at its end, [current_queue]
    takes every accepted key. *)
Fixpoint add_loop (seen : gset string) (urls : list string)
    (current_queue : gset string) (new_urls : list string)
  : result (list string) :=
  match urls with
  | [] => Ok new_urls
  | url :: rest =>
      normalized ← normalize_url url;
      if negb (bool_decide (normalized = ""))
         && bool_decide (normalized ∉ seen)
         && bool_decide (normalized ∉ current_queue)
      then add_loop seen rest ({[normalized]} ∪ current_queue)
             (new_urls ++ [normalized])
      else add_loop seen rest current_queue new_urls
  end.

(** scripts/utils.py, [add_to_queue]: the accepted keys and the files after
    the call. *)
Definition add_to_queue (urls : list string) (fs : files)
  : result (list string * files) :=
  seen ← load_seen_urls fs;
  let current_queue : gset string := list_to_set (load_queue fs) in
  new_urls ← add_loop seen urls current_queue [];
  Ok (new_urls,
      if bool_decide (new_urls = []) then fs
      else mkFiles (blogs_jsonl fs) (queue_txt fs ++ new_urls)).

(** *** The specification's reading of enqueue *)

(** [normalize_url] over a list, failing on the first input that raises *)
Fixpoint normalize_all (urls : list string) : result (list string) :=
  match urls with
  | [] => Ok []
  | u :: rest =>
      k ← normalize_url u;
      ks ← normalize_all rest;
      Ok (k :: ks)
  end.

(** the elements of [l] in order, each at its first occurrence only *)
Fixpoint first_occurrences (l : list string) : list string :=
  match l with
  | [] => []
  | x :: rest => x :: filter (fun y => y ≠ x) (first_occurrences rest)
  end.

(** a key the queue may take: non-empty, not seen, not queued *)
Definition acceptable (seen : gset string) (queue : list string)
    (k : string) : Prop :=
  k ≠ "" ∧ (k ∉ seen) ∧ (k ∉ queue).

#[global] Instance acceptable_dec seen queue k :
  Decision (acceptable seen queue k).
Proof. unfold acceptable. apply _. Defined.

(** number of occurrences of [k] in [l] *)
Definition occurrences (k : string) (l : list string) : nat :=
  length (filter (fun x => x = k) l).

(** *** Sample stores *)

(** a node store with one fetched site, and an empty queue *)
Definition seen_store : files :=
  mkFiles [Blog {["url" := JStr "https://a.example"]}] [].

(** a node store with one fetched site, and one queued key *)
Definition sample_store : files :=
  mkFiles [Blog {["url" := JStr "https://seen.example/"]}; Undecodable]
          ["https://queued.example"].


(** ** scripts/deduplicate.py and scripts/dedupe_data.py: the node store pass *)

(** A Python dict from key to node record, in insertion order. *)
Abbreviation blog_dict := (list (string * gmap string json)).

(** [d[k]] when [k in d] *)
Fixpoint dict_get (k : string) (d : blog_dict) : option (gmap string json) :=
  match d with
  | [] => None
  | (k', v) :: rest => if bool_decide (k' = k) then Some v else dict_get k rest
  end.

(** [d[k] = v]: an existing key keeps its place, a new key goes last *)
Fixpoint dict_set (k : string) (v : gmap string json) (d : blog_dict)
  : blog_dict :=
  match d with
  | [] => [(k, v)]
  | (k', v') :: rest =>
      if bool_decide (k' = k) then (k, v) :: rest
      else (k', v') :: dict_set k v rest
  end.

(** [x == s] for the result [x] of a [get] and a string [s] *)
Definition str_is (x : option json) (s : string) : bool :=
  match x with
  | Some (JStr t) => bool_decide (t = s)
  | _ => false
  end.

(** Python truth of the result of a [get] ([None] when the key is absent) *)
Definition truthy_opt (x : option json) : bool :=
  match x with
  | Some v => truthy v
  | None => false
  end.

(** deduplicate.py: the test that lets [blog] replace [existing] *)
Definition deduplicate_replaces (existing blog : gmap string json) : bool :=
  if str_is (existing !! "scrape_status") "failed"
     && str_is (blog !! "scrape_status") "complete" then true
  else if negb (truthy_opt (existing !! "name"))
          && truthy_opt (blog !! "name") then true
  else if str_is (existing !! "ssg") "unknown"
          && negb (str_is (blog !! "ssg") "unknown") then true
  else false.

(** dedupe_data.py: the test that lets [blog] replace [existing];
    [get('ssg', 'unknown')] reads an absent generator as "unknown" *)
Definition dedupe_replaces (existing blog : gmap string json) : bool :=
  if str_is (blog !! "scrape_status") "complete"
     && negb (str_is (existing !! "scrape_status") "complete") then true
  else if negb (str_is (Some (get_default blog "ssg" (JStr "unknown"))) "unknown")
          && str_is (Some (get_default existing "ssg" (JStr "unknown"))) "unknown"
       then true
  else false.

(** The reading loop both utilities share, with the replacement test as a
    parameter. *)
Fixpoint dedup_loop (replaces : gmap string json → gmap string json → bool)
    (lines : list store_line) (blogs : blog_dict) : result blog_dict :=
  match lines with
  | [] => Ok blogs
  | Undecodable :: rest => dedup_loop replaces rest blogs
  | NotObject _ :: _ => Raise (AttributeError "get")
  | Blog blog :: rest =>
      url ← normalize_url_value (get_default blog "url" (JStr ""));
      if bool_decide (url = "") then dedup_loop replaces rest blogs
      else
        match dict_get url blogs with
        | Some existing =>
            if replaces existing blog
            then dedup_loop replaces rest (dict_set url blog blogs)
            else dedup_loop replaces rest blogs
        | None => dedup_loop replaces rest (dict_set url blog blogs)
        end
  end.

(** deduplicate.py, [deduplicate_blogs]: the records written back, each with
    its url set to the normalized key *)
Definition set_url (entry : string * gmap string json)
  : string * gmap string json :=
  (entry.1, <["url" := JStr entry.1]> entry.2).

Definition deduplicate_blogs (lines : list store_line) : result blog_dict :=
  match dedup_loop deduplicate_replaces lines [] with
  | Ok blogs_by_url => Ok (set_url <$> blogs_by_url)
  | Raise e => Raise e
  end.

(** dedupe_data.py, [dedupe_blogs]: the records written back *)
Definition dedupe_blogs (lines : list store_line) : result blog_dict :=
  dedup_loop dedupe_replaces lines [].

(** *** The specification's merge policy *)

(** the key of a node record *)
Definition blog_key (b : gmap string json) : result string :=
  normalize_url_value (get_default b "url" (JStr "")).

Definition is_complete (b : gmap string json) : bool :=
  str_is (b !! "scrape_status") "complete".
Definition has_known_ssg (b : gmap string json) : bool :=
  negb (str_is (Some (get_default b "ssg" (JStr "unknown"))) "unknown").
Definition has_name (b : gmap string json) : bool :=
  truthy_opt (b !! "name").

(** The specification's words: the merged record [m] of [a] and [b] is
    complete when one of them is, has a known generator when one of them has,
    and has a name when one of them has. *)
Definition most_informative (a b m : gmap string json) : Prop :=
  (is_complete a || is_complete b = true → is_complete m = true)
  ∧ (has_known_ssg a || has_known_ssg b = true → has_known_ssg m = true)
  ∧ (has_name a || has_name b = true → has_name m = true).

(** *** Sample records *)

(** two records of one site: the first names the generator, the second the
    site *)
Definition hexo_record : gmap string json :=
  {["url" := JStr "https://a.example"; "scrape_status" := JStr "complete";
    "name" := JStr ""; "ssg" := JStr "hexo"]}.
Definition named_record : gmap string json :=
  {["url" := JStr "https://a.example"; "scrape_status" := JStr "complete";
    "name" := JStr "Bob"; "ssg" := JStr "unknown"]}.

(** a failed record and a later complete record of one site *)
Definition failed_record : gmap string json :=
  {["url" := JStr "http://www.b.example/"; "scrape_status" := JStr "failed";
    "ssg" := JStr "unknown"; "error" := JStr "timed out"]}.
Definition complete_record : gmap string json :=
  {["url" := JStr "http://b.example"; "scrape_status" := JStr "complete";
    "name" := JStr "B"; "ssg" := JStr "hugo"]}.


(** ** scripts/scraper.py and scripts/fast_scraper.py: the fetcher *)

Module Fetch.

(** What one [requests.get] call may end in: a response with its status code,
    or one of the transport exceptions of [requests]. *)
Inductive outcome :=
| Response (status : Z) (text : string) (headers : list (string * string))
| ConnectionError (msg : string)
| Timeout (msg : string).

(** The world the fetcher runs in: the outcomes the network will give to the
    coming calls, the URLs requested so far and the seconds slept so far.
    A call beyond the given outcomes is refused by the network. *)
Record world := mkWorld {
  network : list outcome;
  requested : list string;
  slept : nat }.

(** computations in the world *)
Definition io (A : Type) : Type := world → A * world.

#[global] Instance io_ret : MRet io := fun A a w => (a, w).
#[global] Instance io_bind : MBind io := fun A B f m w =>
  let '(a, w') := m w in f a w'.

(** [requests.get(url, ...)] *)
Definition requests_get (url : string) : io outcome := fun w =>
  match network w with
  | [] => (ConnectionError "refused",
           mkWorld [] (requested w ++ [url]) (slept w))
  | o :: rest => (o, mkWorld rest (requested w ++ [url]) (slept w))
  end.

(** [time.sleep(n)] *)
Definition sleep (n : nat) : io unit := fun w =>
  (tt, mkWorld (network w) (requested w) (slept w + n)).

(** The body of the [try]: the call, then [raise_for_status], which raises
    HTTPError for a status from 400 to 599.  Every exception here is a
    [requests.RequestException]; the result is the response or [str(e)],
    the text of an HTTPError shortened to its class name. *)
Definition try_get (url : string)
  : io (string * list (string * string) + string) :=
  o ← requests_get url;
  mret (match o with
        | Response status text headers =>
            if ((400 <=? status) && (status <? 600))%Z
            then inr "HTTPError"
            else inl (text, headers)
        | ConnectionError msg => inr msg
        | Timeout msg => inr msg
        end).

(** the tuple [(html, headers, error)] *)
Definition fetched : Type :=
  option string * option (list (string * string)) * option string.

Definition MAX_RETRIES : nat := 2.

(** scraper.py, [fetch_url]: the loop over [range(MAX_RETRIES)] *)
Fixpoint fetch_loop (attempts : list nat) (url : string) : io fetched :=
  match attempts with
  | [] => mret (None, None, Some "Max retries exceeded")
  | attempt :: rest =>
      r ← try_get url;
      match r with
      | inl (text, headers) => mret (Some text, Some headers, None)
      | inr e =>
          if (attempt <? MAX_RETRIES - 1)%nat
          then _ ← sleep 1; fetch_loop rest url
          else mret (None, None, Some e)
      end
  end.

Module Scraper.
Definition fetch_url (url : string) : io fetched :=
  fetch_loop (seq 0 MAX_RETRIES) url.
End Scraper.

(** fast_scraper.py, [fetch_url]: one call, no loop *)
Module FastScraper.
Definition fetch_url (url : string) : io fetched :=
  r ← try_get url;
  mret (match r with
        | inl (text, headers) => (Some text, Some headers, None)
        | inr e => (None, None, Some e)
        end).
End FastScraper.

(** the outcome is an exception of the [try] body *)
Definition fails (o : outcome) : bool :=
  match o with
  | Response status _ _ => ((400 <=? status) && (status <? 600))%Z
  | _ => true
  end.

(** the outcome is an HTTP error status *)
Definition http_error (o : outcome) : bool :=
  match o with
  | Response status _ _ => ((400 <=? status) && (status <? 600))%Z
  | _ => false
  end.

(** the outcome the next call will get *)
Definition next (w : world) : outcome :=
  match network w with
  | [] => ConnectionError "refused"
  | o :: _ => o
  end.

(** the world after the next call *)
Definition after_call (url : string) (w : world) : world :=
  (requests_get url w).2.

(** number of calls made between [w] and [w'] *)
Definition calls (w w' : world) : nat :=
  length (requested w') - length (requested w).

(** the fetch ended in an error *)
Definition failed (r : fetched) : bool :=
  match r with (_, _, Some _) => true | _ => false end.

(** a network that answers 500 and then 200 *)
Definition flaky_server : world :=
  mkWorld [Response 500 "oops" []; Response 200 "<html>" []] [] 0.

(** a network that times out once and then answers 200 *)
Definition slow_server : world :=
  mkWorld [Timeout "timed out"; Response 200 "<html>" []] [] 0.

End Fetch.

(** ** Regular expressions

    The part of Python's [re] the detectors use: literals, [.], [\d], [\s],
    bracketed sets, alternation, one capturing group, and repetition of a
    single-character element, greedy or lazy.  Matching is the backtracking
    search of [re]: alternatives left to right, a greedy repetition longest
    first, a lazy one shortest first, and the first success is the match. *)

Module Re.

(** a member of a bracketed set *)
Inductive set_item :=
| SChar (a : ascii)
| SRange (lo hi : ascii)
| SDigit
| SSpace.

(** a pattern element that matches one character *)
Inductive chr :=
| Lit (a : ascii)
| Dot
| Digit
| Space
| OneOf (items : list set_item)
| NoneOf (items : list set_item).

Inductive regex :=
| Eps
| Chr (c : chr)
| Cat (r1 r2 : regex)
| Alt (r1 r2 : regex)
| Rep (c : chr) (lo : nat) (hi : option nat) (greedy : bool)
| Group (r : regex).

(** [re.IGNORECASE] and [re.DOTALL] *)
Record flags := mkFlags { ignorecase : bool; dotall : bool }.

Definition item_matches (i : set_item) (a : ascii) : bool :=
  match i with
  | SChar x => eqc a x
  | SRange lo hi => in_range (code lo) (code hi) a
  | SDigit => is_digit a
  | SSpace => is_space a
  end.

Definition in_set (fl : flags) (items : list set_item) (a : ascii) : bool :=
  existsb (fun i =>
    item_matches i a
    || (ignorecase fl
        && (item_matches i (lower_char a) || item_matches i (upper_char a))))
    items.

Definition chr_matches (fl : flags) (c : chr) (a : ascii) : bool :=
  match c with
  | Lit x => if ignorecase fl then eqc (lower_char a) (lower_char x) else eqc a x
  | Dot => dotall fl || negb (eqc a lf)
  | Digit => is_digit a
  | Space => is_space a
  | OneOf items => in_set fl items a
  | NoneOf items => negb (in_set fl items a)
  end.

(** the count [n] is below the upper bound *)
Definition may_repeat (hi : option nat) (n : nat) : bool :=
  match hi with
  | None => true
  | Some h => (n <? h)%nat
  end.

Section Matcher.
Context {R : Type} (fl : flags).

(** Repetition of [c], [n] characters taken so far, then the rest of the
    pattern [k]. *)
Fixpoint rep (c : chr) (lo : nat) (hi : option nat) (greedy : bool)
    (n : nat) (s : string) (k : string → option R) : option R :=
  if greedy then
    match
      match s with
      | String a s' =>
          if chr_matches fl c a && may_repeat hi n
          then rep c lo hi greedy (S n) s' k else None
      | "" => None
      end
    with
    | Some x => Some x
    | None => if (lo <=? n)%nat then k s else None
    end
  else
    match (if (lo <=? n)%nat then k s else None) with
    | Some x => Some x
    | None =>
        match s with
        | String a s' =>
            if chr_matches fl c a && may_repeat hi n
            then rep c lo hi greedy (S n) s' k else None
        | "" => None
        end
    end.

(** [go r s g k]: match [r] at the head of [s], the group holding [g], then
    the rest of the pattern [k] on what is left. *)
Fixpoint go (r : regex) (s : string) (g : option string)
    (k : string → option string → option R) : option R :=
  match r with
  | Eps => k s g
  | Chr c =>
      match s with
      | String a s' => if chr_matches fl c a then k s' g else None
      | "" => None
      end
  | Cat r1 r2 => go r1 s g (fun s' g' => go r2 s' g' k)
  | Alt r1 r2 =>
      match go r1 s g k with
      | Some x => Some x
      | None => go r2 s g k
      end
  | Rep c lo hi greedy => rep c lo hi greedy 0 s (fun s' => k s' g)
  | Group r1 =>
      go r1 s g
        (fun s' _ => k s' (Some (take (String.length s - String.length s') s)))
  end.

End Matcher.

(** A match object: the matched text ([group(0)]) and the text of the
    group, when it took part. *)
Record match_obj := mkMatch { whole : string; group1 : option string }.

(** [m.group(1)] *)
Definition group (m : match_obj) : string := default "" (group1 m).

(** A match of [r] that begins at the head of [s]; with [must_advance] the
    empty match is refused. *)
Definition match_here (fl : flags) (r : regex) (must_advance : bool)
    (s : string) : option match_obj :=
  go fl r s None (fun s' g =>
    if must_advance && (String.length s' =? String.length s)%nat then None
    else Some (mkMatch (take (String.length s - String.length s') s) g)).

(** [re.search(r, s, flags)]: the match at the leftmost position that has one *)
Fixpoint search (fl : flags) (r : regex) (s : string) : option match_obj :=
  match match_here fl r false s with
  | Some m => Some m
  | None =>
      match s with
      | "" => None
      | String _ s' => search fl r s'
      end
  end.

(** the test [if re.search(r, s, flags):] *)
Definition found (fl : flags) (r : regex) (s : string) : bool :=
  match search fl r s with
  | Some _ => true
  | None => false
  end.

(** The successive matches of [re.finditer]: [skip] characters of [s] still
    belong to the previous match.  After an empty match the same position is
    tried once more for a match that advances. *)
Fixpoint finditer_go (fl : flags) (r : regex) (s : string) (skip : nat)
  : list match_obj :=
  match s with
  | "" =>
      match skip with
      | 0 =>
          match match_here fl r false s with
          | Some m => [m]
          | None => []
          end
      | S _ => []
      end
  | String _ s' =>
      match skip with
      | S n => finditer_go fl r s' n
      | 0 =>
          match match_here fl r false s with
          | Some m =>
              if (String.length (whole m) =? 0)%nat then
                match match_here fl r true s with
                | Some m2 =>
                    m :: m2 :: finditer_go fl r s' (String.length (whole m2) - 1)
                | None => m :: finditer_go fl r s' 0
                end
              else m :: finditer_go fl r s' (String.length (whole m) - 1)
          | None => finditer_go fl r s' 0
          end
      end
  end.

Definition finditer (fl : flags) (r : regex) (s : string) : list match_obj :=
  finditer_go fl r s 0.

(** the pattern has a capturing group *)
Fixpoint has_group (r : regex) : bool :=
  match r with
  | Group _ => true
  | Cat r1 r2 | Alt r1 r2 => has_group r1 || has_group r2
  | _ => false
  end.

(** [re.findall(r, s, flags)]: the text of the group when the pattern has
    one, the whole match otherwise *)
Definition findall (fl : flags) (r : regex) (s : string) : list string :=
  (fun m => if has_group r then group m else whole m) <$> finditer fl r s.

(** *** Writing patterns *)

Fixpoint lit (s : string) : regex :=
  match s with
  | "" => Eps
  | String a s' => Cat (Chr (Lit a)) (lit s')
  end.

Definition seqs (rs : list regex) : regex := foldr Cat Eps rs.

Fixpoint alts (rs : list regex) : regex :=
  match rs with
  | [] => Eps
  | [r] => r
  | r :: rest => Alt r (alts rest)
  end.

Definition star (c : chr) : regex := Rep c 0 None true.
Definition plus (c : chr) : regex := Rep c 1 None true.
Definition lazy_star (c : chr) : regex := Rep c 0 None false.
Definition opt (c : chr) : regex := Rep c 0 (Some 1) true.
Definition times (n : nat) (c : chr) : regex := Rep c n (Some n) true.

(** the set of the two quote characters, and its complement *)
Definition quote : chr := OneOf [SChar dq; SChar "'"].
Definition not_quote : chr := NoneOf [SChar dq; SChar "'"].

Definition IGNORECASE : flags := mkFlags true false.
Definition IGNORECASE_DOTALL : flags := mkFlags true true.
Definition NOFLAGS : flags := mkFlags false false.

End Re.

(** ** scripts/detectors.py: the signature tables *)

Import Re.

(** the pattern [a.*b] *)
Definition wild (a b : string) : regex := seqs [lit a; star Dot; lit b].

(** One entry of [SSG_PATTERNS]. *)
Record ssg_entry := mkSsg {
  ssg_name : string;
  meta_generator : list regex;
  html_signatures : list regex;
  paths : list string }.

(** [SSG_PATTERNS], in the order of the source. *)
Definition SSG_PATTERNS : list ssg_entry := [
  mkSsg "hexo" [lit "hexo"; lit "Hexo"]
    [wild "Powered by" "Hexo"; wild "hexo-" ".js"; wild "hexo-" ".css";
     lit "/lib/hexo"]
    ["/archives/"; "/tags/"; "/categories/"];
  mkSsg "hugo"
    [seqs [lit "Hugo"; star Space; star (OneOf [SDigit; SChar "."])]]
    [lit "data-hugo"; wild "hugo-" ".js"; lit "/hugo_stats.json"]
    [];
  mkSsg "astro" [lit "Astro"]
    [lit "astro-island"; lit "astro-slot"; lit "/_astro/"; lit "data-astro"]
    ["/_astro/"];
  mkSsg "vitepress" [lit "vitepress"; lit "VitePress"]
    [lit "vitepress"; lit "VPContent"; lit "VPDoc"; lit "@vitepress"]
    [];
  mkSsg "vuepress" [lit "vuepress"; lit "VuePress"]
    [lit "vuepress"; lit "nprogress"; lit "theme-container"]
    [];
  mkSsg "gatsby" [lit "Gatsby"]
    [lit "___gatsby"; lit "gatsby-"; lit "/page-data/"]
    ["/page-data/"];
  mkSsg "nextjs" [lit "Next.js"]
    [lit "_next/"; lit "__NEXT_DATA__"; lit "next/dist"]
    ["/_next/"];
  mkSsg "jekyll" [lit "Jekyll"]
    [lit "jekyll"; wild "Powered by" "Jekyll"]
    [];
  mkSsg "wordpress" [lit "WordPress"]
    [lit "/wp-content/"; lit "/wp-includes/"; lit "wp-json"]
    ["/wp-content/"; "/wp-includes/"];
  mkSsg "typecho" [lit "Typecho"]
    [lit "Typecho"; wild "Powered by" "Typecho"]
    [];
  mkSsg "ghost" [lit "Ghost"]
    [lit "/assets/built/"; lit "ghost-"; lit "content/images"]
    ["/ghost/"];
  mkSsg "gridea" [lit "Gridea"]
    [lit "Gridea"; wild "Powered by" "Gridea"]
    [];
  mkSsg "halo" [lit "Halo"]
    [lit "Halo"; wild "Powered by" "Halo"; wild "/themes/" "halo"]
    [];
  mkSsg "11ty" [lit "Eleventy"; lit "11ty"]
    [lit "eleventy"; lit "11ty"]
    [];
  mkSsg "nuxt" [lit "Nuxt"]
    [lit "__nuxt"; lit "nuxt"; lit "/_nuxt/"]
    ["/_nuxt/"];
  mkSsg "zola" [lit "Zola"]
    [lit "zola"; wild "Powered by" "Zola"]
    [];
  mkSsg "pelican" [lit "Pelican"]
    [lit "pelican"; wild "Powered by" "Pelican"]
    [];
  mkSsg "mkdocs" [lit "mkdocs"; lit "MkDocs"]
    [lit "mkdocs"; lit "MkDocs"]
    [];
  mkSsg "docsify" []
    [lit "docsify"; lit "Docsify"]
    [];
  mkSsg "docusaurus" [lit "Docusaurus"]
    [lit "docusaurus"; lit "Docusaurus"; lit "__docusaurus"]
    [];
  mkSsg "notion" []
    [lit "notion-"; lit "super.so"; lit "notion.site"]
    []
].

(** One entry of [COMMENT_PATTERNS]. *)
Record comment_entry := mkComment {
  system_name : string;
  signatures : list regex;
  entry_storage : string;
  entry_identity : string }.

(** [COMMENT_PATTERNS], in the order of the source. *)
Definition COMMENT_PATTERNS : list comment_entry := [
  mkComment "giscus"
    [lit "giscus.app"; lit "data-repo=";
     seqs [lit "class="; Chr (Lit dq); lit "giscus"; Chr (Lit dq)]]
    "GitHub Discussions" "GitHub";
  mkComment "waline"
    [lit "waline"; lit "Waline"; lit "data-server-url"; lit "waline.js"]
    "self-hosted (Vercel/LeanCloud)" "anonymous/social login";
  mkComment "twikoo"
    [lit "twikoo"; lit "Twikoo"; lit "envId"]
    "self-hosted (Vercel/Tencent Cloud)" "anonymous/social login";
  mkComment "artalk"
    [lit "artalk"; lit "Artalk"; lit "Artalk.init"]
    "self-hosted" "anonymous/email";
  mkComment "disqus"
    [lit "disqus.com"; lit "disqus_shortname"; lit "disqus_thread"]
    "Disqus" "Disqus account";
  mkComment "utterances"
    [lit "utteranc.es"; lit "utterances"]
    "GitHub Issues" "GitHub";
  mkComment "gitalk"
    [lit "gitalk"; lit "Gitalk"]
    "GitHub Issues" "GitHub";
  mkComment "valine"
    [lit "valine"; lit "Valine"; lit "leancloud"]
    "LeanCloud" "anonymous";
  mkComment "cusdis"
    [lit "cusdis"; lit "Cusdis"]
    "self-hosted" "anonymous";
  mkComment "isso"
    [lit "isso"; lit "/isso/"]
    "self-hosted (SQLite)" "anonymous";
  mkComment "remark42"
    [lit "remark42"; lit "remark_config"]
    "self-hosted" "anonymous/social login";
  mkComment "commento"
    [lit "commento"; lit "commento.io"]
    "Commento/self-hosted" "anonymous/social login";
  mkComment "discuss"
    [lit "discuss."; lit "#discuss"]
    "self-hosted" "various"
].

(** ** scripts/detectors.py: the classifiers *)

(** a loop [for pattern in patterns: if re.search(pattern, text,
    re.IGNORECASE): return ...], as the test whether it returns *)
Fixpoint any_search (patterns : list regex) (text : string) : bool :=
  match patterns with
  | [] => false
  | pattern :: rest =>
      if found IGNORECASE pattern text then true else any_search rest text
  end.

(** the two patterns for the generator meta tag, attribute order either way *)
Definition generator_name_content : regex :=
  seqs [lit "<meta"; plus (NoneOf [SChar ">"]); lit "name="; Chr quote;
        lit "generator"; Chr quote; plus (NoneOf [SChar ">"]);
        lit "content="; Chr quote; Group (plus not_quote); Chr quote].
Definition generator_content_name : regex :=
  seqs [lit "<meta"; plus (NoneOf [SChar ">"]); lit "content="; Chr quote;
        Group (plus not_quote); Chr quote; plus (NoneOf [SChar ">"]);
        lit "name="; Chr quote; lit "generator"; Chr quote].

(** the content of the generator meta tag, empty when there is none *)
Definition generator_of (html : string) : string :=
  let generator_match :=
    match search IGNORECASE generator_name_content html with
    | Some m => Some m
    | None => search IGNORECASE generator_content_name html
    end in
  match generator_match with
  | Some m => group m
  | None => ""
  end.

(** the loop over [SSG_PATTERNS.items()] *)
Fixpoint detect_ssg_loop (table : list ssg_entry) (generator html : string)
  : string :=
  match table with
  | [] => "unknown"
  | patterns :: rest =>
      if any_search (meta_generator patterns) generator then ssg_name patterns
      else if any_search (html_signatures patterns) html then ssg_name patterns
      else detect_ssg_loop rest generator html
  end.

(** [detect_ssg(html, headers)]; the headers are not looked at *)
Definition detect_ssg (html : string) : string :=
  detect_ssg_loop SSG_PATTERNS (generator_of html) html.

(** The specification's words: every generator's meta patterns first, the
    body signatures only when no meta pattern matched. *)
Definition detect_ssg_meta_first (html : string) : string :=
  match List.find (fun e => any_search (meta_generator e) (generator_of html))
          SSG_PATTERNS with
  | Some e => ssg_name e
  | None =>
      match List.find (fun e => any_search (html_signatures e) html)
              SSG_PATTERNS with
      | Some e => ssg_name e
      | None => "unknown"
      end
  end.

(** the entry matches the page, by its meta patterns or by its signatures *)
Definition ssg_matches (generator html : string) (e : ssg_entry) : bool :=
  any_search (meta_generator e) generator || any_search (html_signatures e) html.

(** the dict [detect_comment_system] returns *)
Record comment_system := mkSystem {
  type : string;
  storage : option string;
  identity : option string }.

(** [comment|评论|留言] *)
Definition comment_marker : regex :=
  alts [lit "comment"; lit "评论"; lit "留言"].

Fixpoint detect_comment_loop (table : list comment_entry) (html : string)
  : option comment_system :=
  match table with
  | [] => None
  | patterns :: rest =>
      if any_search (signatures patterns) html
      then Some (mkSystem (system_name patterns)
                   (Some (entry_storage patterns))
                   (Some (entry_identity patterns)))
      else detect_comment_loop rest html
  end.

Definition detect_comment_system (html : string) : comment_system :=
  match detect_comment_loop COMMENT_PATTERNS html with
  | Some result => result
  | None =>
      if found IGNORECASE comment_marker html
      then mkSystem "unknown" None None
      else mkSystem "none" None None
  end.

(** no signature of any comment platform matches the page *)
Definition no_platform_signature (html : string) : bool :=
  forallb (fun e => negb (any_search (signatures e) html)) COMMENT_PATTERNS.

(** the page holds a generic comment marker *)
Definition has_comment_marker (html : string) : bool :=
  found IGNORECASE comment_marker html.

(** *** Article count *)

(** [int(text)] for a run of decimal digits; the interpreter's configurable
    limit on the length of a converted digit string is not modelled *)
Definition int_of_digits (text : string) : Z :=
  let fix go (acc : Z) (s : string) : Z :=
    match s with
    | "" => acc
    | String a s' => go (10 * acc + (Z.of_N (code a) - 48))%Z s'
    end in
  go 0%Z text.

(** what the post patterns begin with (href=, a quote, any characters other
    than quotes) and end with (any characters other than quotes, a quote) *)
Definition href_open : list regex := [lit "href="; Chr quote; star not_quote].
Definition href_close : list regex := [star not_quote; Chr quote].

Definition post_patterns : list regex := [
  seqs (href_open
        ++ [lit "/";
            Group (alts [lit "post"; lit "posts"; lit "article"; lit "blog";
                         seqs [lit "archive"; opt (Lit "s")]]);
            lit "/"]
        ++ href_close);
  seqs (href_open ++ [times 4 Digit; lit "/"; times 2 Digit; lit "/"]
        ++ href_close);
  seqs (href_open
        ++ [times 4 Digit; lit "-"; times 2 Digit; lit "-"; times 2 Digit]
        ++ href_close)
].

Definition count_patterns : list regex := [
  seqs [lit "共"; star Space; Group (plus Digit); star Space; lit "篇"];
  seqs [Group (plus Digit); star Space; lit "篇文章"];
  seqs [Group (plus Digit); star Space; lit "article"; opt (Lit "s")];
  seqs [Group (plus Digit); star Space; lit "post"; opt (Lit "s")];
  seqs [lit "总计"; lazy_star Dot; Group (plus Digit); lazy_star Dot; lit "篇"]
].

(** the inner loop [for match in matches] over one pattern's matches *)
Fixpoint count_matches (matches : list string) (seen_urls : gset string)
    (count : Z) : gset string * Z :=
  match matches with
  | [] => (seen_urls, count)
  | m :: rest =>
      if bool_decide (m ∉ seen_urls)
      then count_matches rest ({[m]} ∪ seen_urls) (count + 1)%Z
      else count_matches rest seen_urls count
  end.

(** the loop [for pattern in post_patterns] *)
Fixpoint count_posts (patterns : list regex) (html : string)
    (seen_urls : gset string) (count : Z) : gset string * Z :=
  match patterns with
  | [] => (seen_urls, count)
  | pattern :: rest =>
      let '(seen_urls, count) :=
        count_matches (findall IGNORECASE pattern html) seen_urls count in
      count_posts rest html seen_urls count
  end.

(** the loop [for pattern in count_patterns] *)
Fixpoint count_explicit (patterns : list regex) (html : string) (count : Z)
  : Z :=
  match patterns with
  | [] => count
  | pattern :: rest =>
      match search IGNORECASE pattern html with
      | Some m =>
          let explicit_count := int_of_digits (group m) in
          if (count <? explicit_count)%Z
          then count_explicit rest html explicit_count
          else count_explicit rest html count
      | None => count_explicit rest html count
      end
  end.

(** [count_articles(html, base_url)]; [None] is Python's [None] *)
Definition count_articles (html base_url : string) : option Z :=
  let '(_, count) := count_posts post_patterns html ∅ 0%Z in
  let count := count_explicit count_patterns html count in
  if (0 <? count)%Z then Some count else None.

(** *** The two counts of the specification *)

(** every text the post patterns find, pattern by pattern *)
Definition post_matches (html : string) : list string :=
  mjoin ((fun pattern => findall IGNORECASE pattern html) <$> post_patterns).

(** the number of distinct texts the post patterns find *)
Definition pattern_count (html : string) : Z :=
  Z.of_nat (size (list_to_set (post_matches html) : gset string)).

(** the numbers the explicit phrasings state, one per count pattern that
    matches *)
Definition explicit_claims (html : string) : list Z :=
  omap (fun pattern =>
          (fun m => int_of_digits (group m)) <$> search IGNORECASE pattern html)
       count_patterns.

(** the largest explicit claim, 0 when there is none *)
Definition explicit_count (html : string) : Z :=
  foldr Z.max 0%Z (explicit_claims html).

(** *** Sample pages *)

(** [attr name value] is the text [ name="value"] *)
Definition attr (name value : string) : string :=
  " " +:+ name +:+ "=" +:+ String dq value +:+ String dq "".

(** a page that declares Hugo in its generator meta tag and loads a script
    from /lib/hexo *)
Definition hugo_page_with_hexo_script : string :=
  "<html><head><meta" +:+ attr "name" "generator"
  +:+ attr "content" "Hugo 0.121.1" +:+ "><script"
  +:+ attr "src" "/lib/hexo/x.js" +:+ "></script></head></html>".

(** a page that declares Hugo in its generator meta tag and holds an Astro
    island *)
Definition hugo_page_with_astro_island : string :=
  "<html><head><meta" +:+ attr "name" "generator"
  +:+ attr "content" "Hugo 0.121.1"
  +:+ "></head><body><astro-island></astro-island></body></html>".

(** a page with a comment section of no known platform *)
Definition page_with_comments : string :=
  "<html><body><h3>Comments</h3><form></form></body></html>".

(** a page without any comment section *)
Definition page_without_comments : string :=
  "<html><body><p>Hello</p></body></html>".

(** ** urllib.parse: putting a URL together *)

Module UrlJoin.

(** [urlunsplit((scheme, netloc, url, query, fragment))] *)
Definition urlunsplit (scheme netloc url query fragment : string) : string :=
  let url :=
    if negb (bool_decide (netloc = ""))
       || (negb (bool_decide (scheme = "")) && mem scheme uses_netloc
           && negb (bool_decide (take 2 url = "//")))
    then
      let url :=
        if negb (bool_decide (url = "")) && negb (bool_decide (take 1 url = "/"))
        then "/" +:+ url else url in
      "//" +:+ netloc +:+ url
    else url in
  let url := if bool_decide (scheme = "") then url else scheme +:+ ":" +:+ url in
  let url := if bool_decide (query = "") then url else url +:+ "?" +:+ query in
  let url :=
    if bool_decide (fragment = "") then url else url +:+ "#" +:+ fragment in
  url.

(** [urlunparse((scheme, netloc, url, params, query, fragment))] *)
Definition urlunparse (scheme netloc url params query fragment : string)
  : string :=
  let url := if bool_decide (params = "") then url else url +:+ ";" +:+ params in
  urlunsplit scheme netloc url query fragment.

(** [l[:-1]] and [l[-1]] *)
Definition but_last (l : list string) : list string := removelast l.
Definition last_or_empty (l : list string) : string := List.last l "".

(** [segments[1:-1] = filter(None, segments[1:-1])]: the empty segments
    strictly between the first and the last are dropped *)
Definition drop_empty_middle (segments : list string) : list string :=
  match segments with
  | first :: (_ :: _) as rest =>
      first :: filter (fun seg => seg ≠ "") (but_last rest)
        ++ [last_or_empty rest]
  | _ => segments
  end.

(** the loop over [segments] that resolves '.' and '..' *)
Fixpoint resolve (segments resolved_path : list string) : list string :=
  match segments with
  | [] => resolved_path
  | seg :: rest =>
      if bool_decide (seg = "..") then resolve rest (but_last resolved_path)
      else if bool_decide (seg = ".") then resolve rest resolved_path
      else resolve rest (resolved_path ++ [seg])
  end.

(** [urljoin(base, url)] *)
Definition urljoin (base url : string) : result string :=
  if bool_decide (base = "") then Ok url
  else if bool_decide (url = "") then Ok base
  else
    b ← urlparse base "";
    u ← urlparse url (scheme b);
    if negb (bool_decide (scheme u = scheme b))
       || negb (mem (scheme u) uses_relative)
    then Ok url
    else if mem (scheme u) uses_netloc && negb (bool_decide (netloc u = ""))
    then Ok (urlunparse (scheme u) (netloc u) (path u) (params u) (query u)
               (fragment u))
    else
      let netloc := if mem (scheme u) uses_netloc then netloc b else netloc u in
      if bool_decide (path u = "") && bool_decide (params u = "")
      then
        let query := if bool_decide (query u = "") then query b else query u in
        Ok (urlunparse (scheme u) netloc (path b) (params b) query (fragment u))
      else
        let base_parts := split "/" (path b) in
        let base_parts :=
          if bool_decide (last_or_empty base_parts = "") then base_parts
          else but_last base_parts in
        let segments :=
          if bool_decide (take 1 (path u) = "/") then split "/" (path u)
          else drop_empty_middle (base_parts ++ split "/" (path u)) in
        let resolved_path := resolve segments [] in
        let resolved_path :=
          if bool_decide (last_or_empty segments = ".")
             || bool_decide (last_or_empty segments = "..")
          then resolved_path ++ [""] else resolved_path in
        let joined := join "/" resolved_path in
        Ok (urlunparse (scheme u) netloc
              (if bool_decide (joined = "") then "/" else joined)
              (params u) (query u) (fragment u)).

End UrlJoin.
Import UrlJoin.

(** ** scripts/utils.py: the blog-likelihood filter *)

Definition skip_domains : list string := [
  "github.com"; "twitter.com"; "x.com"; "weibo.com"; "zhihu.com";
  "bilibili.com"; "youtube.com"; "facebook.com"; "instagram.com";
  "telegram.org"; "t.me"; "discord.com"; "discord.gg"; "linkedin.com";
  "reddit.com"; "pinterest.com"; "tiktok.com"; "douyin.com";
  "xiaohongshu.com"; "douban.com"; "tieba.baidu.com";
  "google.com"; "baidu.com"; "bing.com"; "sogou.com"; "so.com";
  "jsdelivr.net"; "cloudflare.com"; "unpkg.com"; "cdnjs.com";
  "bootcdn.cn"; "bootcss.com"; "staticfile.org"; "cloudflareinsights.com";
  "cdn.bootcdn.net"; "loli.net"; "fonts.googleapis.com"; "fonts.gstatic.com";
  "gravatar.com"; "wp.com"; "githubusercontent.com"; "cravatar.cn";
  "weavatar.com"; "q.qlogo.cn"; "thirdqq.qlogo.cn";
  "afdian.com"; "afdian.net"; "paypal.com"; "ko-fi.com"; "patreon.com";
  "beian.miit.gov.cn"; "icp.gov.cn"; "mps.gov.cn";
  "vercel.app"; "netlify.app"; "herokuapp.com"; "railway.app";
  "amazonaws.com"; "aliyuncs.com"; "qcloud.com"; "tencentcloud.com";
  "azure.com"; "cloudfront.net"; "akamai.com";
  "google-analytics.com"; "googletagmanager.com"; "umami.is";
  "plausible.io"; "clarity.ms"; "hotjar.com"; "cnzz.com";
  "busuanzi.ibruce.info";
  "wjx.cn"; "wenjuan.com"; "typeform.com"; "jotform.com";
  "gitee.com"; "gitlab.com"; "bitbucket.org"; "codepen.io"; "jsfiddle.net";
  "stackoverflow.com"; "stackexchange.com"; "csdn.net"; "jianshu.com";
  "giscus.app"; "utteranc.es"; "disqus.com"; "disquscdn.com";
  "geetest.com"; "recaptcha.net"; "hcaptcha.com";
  "browsehappy.com"; "creativecommons.org"; "opensource.org";
  "status."; "uptime.";
  "dogecloud.com"; "qiniu.com"; "upyun.com";
  "apple.com"; "microsoft.com"; "mozilla.org"
].

Definition skip_exact : list string := ["blogs.forum"].

Definition skip_extensions : list string :=
  [".js"; ".css"; ".png"; ".jpg"; ".jpeg"; ".gif"; ".svg"; ".ico"; ".woff";
   ".woff2"; ".ttf"; ".xml"; ".json"; ".rss"].

(** [is_likely_blog_url(url)] *)
Definition is_likely_blog_url (url : string) : result bool :=
  if bool_decide (url = "") then Ok false
  else
    parsed ← urlparse url "";
    let host := lower (netloc parsed) in
    let path := lower (path parsed) in
    if existsb (fun domain => contains domain host) skip_domains then Ok false
    else if mem host skip_exact then Ok false
    else if existsb (fun ext => endswith ext path) skip_extensions then Ok false
    else Ok true.

(** ** scripts/detectors.py: the friend-link extractor *)

Import Re.

(** the pattern of an href attribute: a quote, a group of one or more
    characters other than quotes, a quote *)
Definition href_pattern : regex :=
  seqs [lit "href="; Chr quote; Group (plus not_quote); Chr quote].

Definition container_tag : regex :=
  alts [lit "div"; lit "section"; lit "ul"; lit "ol"].

(** the pattern of a section whose class or id holds a friend keyword *)
Definition friend_section_pattern : regex :=
  seqs [lit "<"; container_tag; star (NoneOf [SChar ">"]);
        alts [lit "class"; lit "id"]; lit "="; Chr quote; star not_quote;
        alts [lit "friend"; lit "link"; lit "blogroll"; lit "友链"; lit "友情"];
        star not_quote; Chr quote; star (NoneOf [SChar ">"]); lit ">";
        Group (lazy_star Dot); lit "</"; container_tag; lit ">"].

(** [href.startswith(('#', 'javascript:', 'mailto:'))] *)
Definition skipped_href (href : string) : bool :=
  startswith "#" href || startswith "javascript:" href
  || startswith "mailto:" href.

(** the body of the loop over the hrefs of a section: the link to append,
    when there is one *)
Definition friend_link (base_url href : string) : result (option string) :=
  if skipped_href href then Ok None
  else
    absolute_url ← urljoin base_url href;
    match is_likely_blog_url absolute_url with
    | Raise e => Raise e
    | Ok false => Ok None
    | Ok true =>
        parsed_base ← urlparse base_url "";
        parsed_link ← urlparse absolute_url "";
        if bool_decide (netloc parsed_base ≠ netloc parsed_link)
        then Ok (Some absolute_url) else Ok None
    end.

(** the loop [for match in href_pattern.finditer(section)] *)
Fixpoint section_links (base_url : string) (hrefs : list string)
    (links : list string) : result (list string) :=
  match hrefs with
  | [] => Ok links
  | href :: rest =>
      match friend_link base_url href with
      | Raise e => Raise e
      | Ok (Some absolute_url) =>
          section_links base_url rest (links ++ [absolute_url])
      | Ok None => section_links base_url rest links
      end
  end.

(** the hrefs of a section, [match.group(1)] of each match *)
Definition hrefs_of (section : string) : list string :=
  group <$> finditer IGNORECASE href_pattern section.

(** the loop [for section in sections] *)
Fixpoint all_section_links (base_url : string) (sections : list string)
    (links : list string) : result (list string) :=
  match sections with
  | [] => Ok links
  | section :: rest =>
      links ← section_links base_url (hrefs_of section) links;
      all_section_links base_url rest links
  end.

(** [extract_friend_links(html, base_url)]; [list(set(links))] lists each
    link once, in an order Python does not fix *)
Definition extract_friend_links (html base_url : string)
  : result (list string) :=
  let sections := findall IGNORECASE_DOTALL friend_section_pattern html in
  match all_section_links base_url sections [] with
  | Ok links => Ok (elements (list_to_set links : gset string))
  | Raise e => Raise e
  end.

(** the fragment of the specification's scenario *)
Definition friend_fragment : string :=
  "<div" +:+ attr "class" "friend-links" +:+ "><a"
  +:+ attr "href" "https://other.example/" +:+ ">Other</a></div>".

(** [l] is the resolution of an href that stands inside a friend-keyword
    container of [html], is no fragment, script or mail link, passes the
    blog-likelihood filter and has another host than [base_url]. *)
Definition accepted_link (html base_url l : string) : Prop :=
  ∃ section href,
    section ∈ findall IGNORECASE_DOTALL friend_section_pattern html
    ∧ href ∈ hrefs_of section
    ∧ skipped_href href = false
    ∧ urljoin base_url href = Ok l
    ∧ is_likely_blog_url l = Ok true
    ∧ ∃ parsed_base parsed_link,
        urlparse base_url "" = Ok parsed_base
        ∧ urlparse l "" = Ok parsed_link
        ∧ netloc parsed_base ≠ netloc parsed_link.

(** ** scripts/utils.py: the domain and the base URL of a site *)

(** [get_domain(url)] *)
Definition get_domain (url : string) : result string :=
  key ← normalize_url url;
  parsed ← urlparse key "";
  Ok (netloc parsed).

(** [get_base_url(url)] *)
Definition get_base_url (url : string) : result string :=
  parsed ← urlparse url "";
  Ok (scheme parsed +:+ "://" +:+ netloc parsed).

(** the host of the key of the text [r] that follows the scheme: the
    authority in lower case, without a leading "www." *)
Definition key_host (r : string) : string :=
  strip_www (lower (http_authority r)).

(** ** scripts/utils.py: appending a node record *)

(** [save_blog(blog)]: one more line at the end of blogs.jsonl.  The line
    is taken to decode to the record it was written from; the JSON text
    itself is not modelled. *)
Definition save_blog (blog : gmap string json) (fs : files) : files :=
  mkFiles (blogs_jsonl fs ++ [Blog blog]) (queue_txt fs).

(** ** scripts/scraper.py and scripts/fast_scraper.py: taking a batch *)

(** the slices [l[:n]] and [l[n:]] for an integer [n]; a negative [n] counts
    from the end *)
Definition slice_to {A} (n : Z) (l : list A) : list A :=
  if (n <? 0)%Z then firstn (Z.to_nat (Z.of_nat (length l) + n)) l
  else firstn (Z.to_nat n) l.
Definition slice_from {A} (n : Z) (l : list A) : list A :=
  if (n <? 0)%Z then skipn (Z.to_nat (Z.of_nat (length l) + n)) l
  else skipn (Z.to_nat n) l.

(** The opening of [run_batch] and of [run_batch_parallel]: the queue is
    read, and unless it is empty its first [batch_size] entries are taken as
    the batch and the others written back.  [None] is the early return on an
    empty queue. *)
Definition take_batch (batch_size : Z) (fs : files)
  : option (list string * files) :=
  let queue := load_queue fs in
  if bool_decide (queue = []) then None
  else
    let batch := slice_to batch_size queue in
    let remaining := slice_from batch_size queue in
    Some (batch, save_queue remaining fs).

(** ** scripts/deduplicate.py and scripts/dedupe_data.py: the queue pass *)

(** The keys of the node store as both utilities collect them: an empty key
    is left out, and the bare [except] skips a line whatever goes wrong with
    it. *)
Fixpoint scraped_urls_from (lines : list store_line) (scraped : gset string)
  : gset string :=
  match lines with
  | [] => scraped
  | Blog blog :: rest =>
      match normalize_url_value (get_default blog "url" (JStr "")) with
      | Ok url =>
          if bool_decide (url = "") then scraped_urls_from rest scraped
          else scraped_urls_from rest ({[url]} ∪ scraped)
      | Raise _ => scraped_urls_from rest scraped
      end
  | _ :: rest => scraped_urls_from rest scraped
  end.

Definition scraped_urls (fs : files) : gset string :=
  scraped_urls_from (blogs_jsonl fs) ∅.

(** deduplicate.py, [deduplicate_queue]: the loop over the lines of
    queue.txt *)
Fixpoint deduplicate_queue_loop (scraped_urls : gset string)
    (lines : list string) (seen : gset string) (unique_queue : list string)
  : result (list string) :=
  match lines with
  | [] => Ok unique_queue
  | line :: rest =>
      let url := strip line in
      if bool_decide (url = "")
      then deduplicate_queue_loop scraped_urls rest seen unique_queue
      else
        normalized ← normalize_url url;
        if negb (bool_decide (normalized = ""))
           && bool_decide (normalized ∉ scraped_urls)
           && bool_decide (normalized ∉ seen)
        then deduplicate_queue_loop scraped_urls rest ({[normalized]} ∪ seen)
               (unique_queue ++ [normalized])
        else deduplicate_queue_loop scraped_urls rest seen unique_queue
  end.

(** [deduplicate_queue()]: the list returned and the files after the call.
    A missing queue file, on which the source returns at once, is not told
    apart from an empty one. *)
Definition deduplicate_queue (fs : files) : result (list string * files) :=
  let scraped_urls := scraped_urls fs in
  unique_queue ← deduplicate_queue_loop scraped_urls (queue_txt fs) ∅ [];
  Ok (unique_queue, mkFiles (blogs_jsonl fs) unique_queue).

(** dedupe_data.py, [dedupe_queue]: the loop over the lines of queue.txt *)
Fixpoint dedupe_queue_loop (scraped : gset string) (lines : list string)
    (seen : gset string) (queue : list string) : result (list string) :=
  match lines with
  | [] => Ok queue
  | line :: rest =>
      url ← normalize_url (strip line);
      if bool_decide (url = "") then dedupe_queue_loop scraped rest seen queue
      else if bool_decide (url ∈ seen) || bool_decide (url ∈ scraped)
      then dedupe_queue_loop scraped rest seen queue
      else dedupe_queue_loop scraped rest ({[url]} ∪ seen) (queue ++ [url])
  end.

(** [dedupe_queue()]: the files after the call; a missing queue file is not
    told apart from an empty one *)
Definition dedupe_queue (fs : files) : result files :=
  let scraped := scraped_urls fs in
  queue ← dedupe_queue_loop scraped (queue_txt fs) ∅ [];
  Ok (mkFiles (blogs_jsonl fs) queue).

(** the non-empty keys of the records of a node store, line by line; a line
    without a key gives none *)
Fixpoint line_keys (lines : list store_line) : list string :=
  match lines with
  | [] => []
  | Blog blog :: rest =>
      match blog_key blog with
      | Ok k => if bool_decide (k = "") then line_keys rest
                else k :: line_keys rest
      | Raise _ => line_keys rest
      end
  | _ :: rest => line_keys rest
  end.

(** *** More sample stores *)

(** a queue with a blank line, two spellings of one site, a fetched site and
    a second new site *)
Definition untidy_store : files :=
  mkFiles [Blog {["url" := JStr "https://seen.example/"]}; Undecodable]
          ["a.example"; ""; "https://A.example/"; "seen.example";
           "  b.example  "].

(** a node store with two records of one site between records of two
    others *)
Definition repeated_store : list store_line :=
  [Blog {["url" := JStr "b.example"]};
   Blog {["url" := JStr "https://a.example/"]};
   Undecodable;
   Blog {["url" := JStr "https://B.example"; "name" := JStr "B"]};
   Blog {["name" := JStr "no url"]}].

(** ** The edge store *)

(** edges.csv as the csv module reads it, under the header source,target,type
    that every writer of the repository puts first: the fields of each data
    row, the empty list for a blank line.  A missing file is [None].  The
    backup copy the passes leave beside it is not modelled. *)
Abbreviation edges_csv := (option (list (list string))).

(** an edge as the passes hold it; the type is [None] when the row has no
    third field *)
Abbreviation edge := (string * string * option string)%type.

(** scripts/utils.py, [add_edge]: the file after the call and whether the
    call raised.  The file is created, with its header, before the endpoints
    are normalized. *)
Definition add_edge (source target edge_type : string) (edges : edges_csv)
  : edges_csv * result unit :=
  let rows := default [] edges in
  match normalize_url source with
  | Raise e => (Some rows, Raise e)
  | Ok s =>
      match normalize_url target with
      | Raise e => (Some rows, Raise e)
      | Ok t => (Some (rows ++ [[s; t; edge_type]]), Ok ())
      end
  end.

(** [normalize_url(row[name])]; a row too short for the column reads as
    [None], which is falsy *)
Definition normalize_url_field (field : option string) : result string :=
  match field with
  | Some url => normalize_url url
  | None => Ok ""
  end.

(** the row [csv.writer] writes for an edge; [None] is written as the empty
    text *)
Definition edge_row (e : edge) : list string :=
  [e.1.1; e.1.2; default "" e.2].

(** deduplicate.py, [deduplicate_edges]: the loop over the rows *)
Fixpoint deduplicate_edges_loop (rows : list (list string))
    (unique_edges : gset edge) : result (gset edge) :=
  match rows with
  | [] => Ok unique_edges
  | row :: rest =>
      if bool_decide (row = []) then deduplicate_edges_loop rest unique_edges
      else
        source ← normalize_url_field (row !! 0%nat);
        target ← normalize_url_field (row !! 1%nat);
        let edge_type := row !! 2%nat in
        if negb (bool_decide (source = "")) && negb (bool_decide (target = ""))
        then deduplicate_edges_loop rest
               ({[(source, target, edge_type)]} ∪ unique_edges)
        else deduplicate_edges_loop rest unique_edges
  end.

(** [deduplicate_edges()]: the set returned and the file after the call; the
    rows are written in the order the set is iterated in, which Python does
    not fix *)
Definition deduplicate_edges (edges : edges_csv)
  : result (option (gset edge) * edges_csv) :=
  match edges with
  | None => Ok (None, None)
  | Some rows =>
      unique_edges ← deduplicate_edges_loop rows ∅;
      Ok (Some unique_edges, Some (edge_row <$> elements unique_edges))
  end.

(** dedupe_data.py, [dedupe_edges]: the loop over the rows *)
Fixpoint dedupe_edges_loop (rows : list (list string)) (edges : gset edge)
  : result (gset edge) :=
  match rows with
  | [] => Ok edges
  | row :: rest =>
      if bool_decide (row = []) then dedupe_edges_loop rest edges
      else
        source ← normalize_url_field (row !! 0%nat);
        target ← normalize_url_field (row !! 1%nat);
        let edge := (source, target, row !! 2%nat) in
        if bool_decide (edge ∈ edges) then dedupe_edges_loop rest edges
        else dedupe_edges_loop rest ({[edge]} ∪ edges)
  end.

(** [dedupe_edges()]: the file after the call *)
Definition dedupe_edges (edges : edges_csv) : result edges_csv :=
  match edges with
  | None => Ok None
  | Some rows =>
      edges ← dedupe_edges_loop rows ∅;
      Ok (Some (edge_row <$> elements edges))
  end.

(** both endpoints of the edge are non-empty *)
Definition has_endpoints (e : edge) : Prop := e.1.1 ≠ "" ∧ e.1.2 ≠ "".

#[global] Instance has_endpoints_dec e : Decision (has_endpoints e).
Proof. unfold has_endpoints. apply _. Defined.

(** a data row as the passes read it: both endpoints normalized, the type as
    it stands *)
Definition read_edge (row : list string) : result edge :=
  source ← normalize_url_field (row !! 0%nat);
  target ← normalize_url_field (row !! 1%nat);
  Ok (source, target, row !! 2%nat).

(** an edge file with a repeated edge and a row without target *)
Definition sample_edges : list (list string) :=
  [["https://a.example"; "https://b.example"; "friend_link"];
   ["http://a.example"; ""; "friend_link"];
   ["https://A.example/"; "b.example"; "friend_link"]].

(** ** scripts/utils.py: every link of a page *)

(** [href.startswith(('#', 'javascript:', 'mailto:', 'tel:'))] *)
Definition skipped_link (href : string) : bool :=
  startswith "#" href || startswith "javascript:" href
  || startswith "mailto:" href || startswith "tel:" href.

(** the loop [for match in href_pattern.finditer(html)] *)
Fixpoint extract_links_loop (base_url : string) (hrefs links : list string)
  : result (list string) :=
  match hrefs with
  | [] => Ok links
  | href :: rest =>
      if skipped_link href then extract_links_loop base_url rest links
      else
        match urljoin base_url href with
        | Ok absolute_url =>
            extract_links_loop base_url rest (links ++ [absolute_url])
        | Raise e => Raise e
        end
  end.

(** [extract_links_from_html(html, base_url)]; its pattern is the
    [href_pattern] of the friend-link extractor *)
Definition extract_links_from_html (html base_url : string)
  : result (list string) :=
  extract_links_loop base_url (hrefs_of html) [].

(** ** scripts/scraper.py: the members of a blog circle *)

(** the loop [for link in all_links] of [scrape_circle] *)
Fixpoint circle_members (circle_url : string) (all_links members : list string)
  : result (list string) :=
  match all_links with
  | [] => Ok members
  | link :: rest =>
      match is_likely_blog_url link with
      | Raise e => Raise e
      | Ok false => circle_members circle_url rest members
      | Ok true =>
          circle_domain ← get_domain circle_url;
          link_domain ← get_domain link;
          if bool_decide (circle_domain ≠ link_domain) then
            normalized ← normalize_url link;
            base ← get_base_url normalized;
            if bool_decide (base ∉ members)
            then circle_members circle_url rest (members ++ [base])
            else circle_members circle_url rest members
          else circle_members circle_url rest members
      end
  end.

(** the dict [scrape_circle] returns, without its field scraped_at, the
    wall-clock time of the call *)
Record circle := mkCircle {
  circle_name : string;
  circle_url : string;
  member_count : nat;
  members : list string }.

(** how a call ends: with a value, with one of the modelled exceptions, or
    with the TypeError of a pattern applied to [None] *)
Inductive ending (A : Type) :=
| Returns (a : A)
| Raises (e : exn)
| TypeError.
Arguments Returns {A} a.
Arguments Raises {A} e.
Arguments TypeError {A}.

(** Python truth of the error of a fetch: [None] and the empty text are
    falsy *)
Definition is_error (error : option string) : bool :=
  match error with
  | Some e => negb (bool_decide (e = ""))
  | None => false
  end.

(** [scrape_circle(circle_url, circle_name)]; what it logs is not modelled *)
Definition scrape_circle (circle_url circle_name : string)
  : Fetch.io (ending circle) :=
  r ← Fetch.Scraper.fetch_url circle_url;
  let '(html, _, error) := r in
  mret (if is_error error
        then Returns (mkCircle circle_name circle_url 0 [])
        else
          match html with
          | None => TypeError
          | Some html =>
              match extract_links_from_html html circle_url with
              | Raise e => Raises e
              | Ok all_links =>
                  match circle_members circle_url all_links [] with
                  | Raise e => Raises e
                  | Ok members =>
                      Returns (mkCircle circle_name circle_url
                                 (length members) members)
                  end
              end
          end).

(** [m] is the home page of [link], a likely blog outside the domain of
    [circle_url] *)
Definition member_of (circle_url link m : string) : Prop :=
  is_likely_blog_url link = Ok true
  ∧ ∃ d, get_domain link = Ok d
         ∧ get_domain circle_url ≠ Ok d
         ∧ (m = "http://" +:+ d ∨ m = "https://" +:+ d).

(** the tuple of a fetch has the text and the headers and no error, or only
    an error *)
Definition one_sided (r : Fetch.fetched) : Prop :=
  (∃ text headers, r = (Some text, Some headers, None))
  ∨ (∃ e, r = (None, None, Some e)).

(** a circle page with a member under two schemes, a link into the circle
    itself, a link to a code platform and a mail link *)
Definition circle_page : string :=
  "<ul><li><a" +:+ attr "href" "https://alice.example/about" +:+ ">A</a></li>"
  +:+ "<li><a" +:+ attr "href" "/join" +:+ ">Join</a></li>"
  +:+ "<li><a" +:+ attr "href" "https://github.com/circle" +:+ ">Code</a></li>"
  +:+ "<li><a" +:+ attr "href" "mailto:hi@circle.example" +:+ ">Mail</a></li>"
  +:+ "<li><a" +:+ attr "href" "http://www.alice.example/" +:+ ">A</a></li>"
  +:+ "<li><a" +:+ attr "href" "https://ALICE.example/posts/1" +:+ ">A</a></li>"
  +:+ "</ul>".

(** a network that serves the circle page *)
Definition circle_world : Fetch.world :=
  Fetch.mkWorld [Fetch.Response 200 circle_page []] [] 0.

(** ** scripts/detectors.py: the friend-links page *)

(** the two patterns of [find_friend_links_page]: an href that holds a friend
    keyword, and an href that holds one after a slash *)
Definition friend_patterns : list regex := [
  seqs [lit "href="; Chr quote;
        Group (seqs [star not_quote;
                     alts [lit "friend"; lit "link"; lit "友链";
                           lit "友情链接"; lit "links"];
                     star not_quote]);
        Chr quote];
  seqs [lit "href="; Chr quote;
        Group (seqs [star not_quote; lit "/";
                     alts [lit "friend"; lit "link"; lit "links";
                           lit "blogroll"];
                     star not_quote]);
        Chr quote]
].

(** [match and not match.startswith(('#', 'javascript:'))] *)
Definition usable_page (m : string) : bool :=
  negb (bool_decide (m = ""))
  && negb (startswith "#" m || startswith "javascript:" m).

(** the loop [for match in matches] *)
Fixpoint first_usable (matches : list string) : option string :=
  match matches with
  | [] => None
  | m :: rest => if usable_page m then Some m else first_usable rest
  end.

(** the loop [for pattern in friend_patterns] *)
Fixpoint find_page_loop (patterns : list regex) (html base_url : string)
  : result (option string) :=
  match patterns with
  | [] => Ok None
  | pattern :: rest =>
      match first_usable (findall IGNORECASE pattern html) with
      | Some m =>
          match urljoin base_url m with
          | Ok page => Ok (Some page)
          | Raise e => Raise e
          end
      | None => find_page_loop rest html base_url
      end
  end.

(** [find_friend_links_page(html, base_url)] *)
Definition find_friend_links_page (html base_url : string)
  : result (option string) :=
  find_page_loop friend_patterns html base_url.

(** every href the friend patterns find in the page, pattern by pattern *)
Definition friend_page_matches (html : string) : list string :=
  mjoin ((fun pattern => findall IGNORECASE pattern html) <$> friend_patterns).

(** a page whose first friend-keyword href is a fragment and whose second is
    the friends page *)
Definition page_with_friends_link : string :=
  "<nav><a" +:+ attr "href" "#links" +:+ ">Top</a><a"
  +:+ attr "href" "/about" +:+ ">About</a><a"
  +:+ attr "href" "/Friends/" +:+ ">Friends</a></nav>".

(** ** scripts/discover_friends.py: the external links of a page *)

(** the loop [for match in href_pattern.finditer(html)] of
    [extract_external_links]; an href that [urljoin] refuses is skipped *)
Fixpoint external_links_loop (base_url base_domain : string)
    (hrefs links : list string) : result (list string) :=
  match hrefs with
  | [] => Ok links
  | href :: rest =>
      if skipped_link href
      then external_links_loop base_url base_domain rest links
      else
        match urljoin base_url href with
        | Raise _ => external_links_loop base_url base_domain rest links
        | Ok absolute_url =>
            link_domain ← get_domain absolute_url;
            if negb (bool_decide (link_domain = ""))
               && bool_decide (link_domain ≠ base_domain)
            then
              match is_likely_blog_url absolute_url with
              | Raise e => Raise e
              | Ok false => external_links_loop base_url base_domain rest links
              | Ok true =>
                  base ← get_base_url absolute_url;
                  if negb (bool_decide (base = ""))
                     && bool_decide (base ∉ links)
                  then external_links_loop base_url base_domain rest
                         (links ++ [base])
                  else external_links_loop base_url base_domain rest links
              end
            else external_links_loop base_url base_domain rest links
        end
  end.

(** [extract_external_links(html, base_url)] *)
Definition extract_external_links (html base_url : string)
  : result (list string) :=
  if bool_decide (html = "") then Ok []
  else
    base_domain ← get_domain base_url;
    external_links_loop base_url base_domain (hrefs_of html) [].

(** [l] is the base URL of the resolution of [href], a likely blog with a
    domain of its own *)
Definition external_link (base_url href l : string) : Prop :=
  skipped_link href = false
  ∧ ∃ absolute_url d,
      urljoin base_url href = Ok absolute_url
      ∧ get_domain absolute_url = Ok d ∧ d ≠ ""
      ∧ get_domain base_url ≠ Ok d
      ∧ is_likely_blog_url absolute_url = Ok true
      ∧ get_base_url absolute_url = Ok l.
(** *** Facts about the text primitives *)

Section StrFacts.

Lemma app_String a (s t : string) : String a s +:+ t = String a (s +:+ t).
Proof. reflexivity. Qed.

Lemma app_empty_r (s : string) : s +:+ "" = s.
Proof. induction s as [|a s IH]; [done|]. by rewrite app_String, IH. Qed.

Lemma app_assoc_str (s t u : string) : (s +:+ t) +:+ u = s +:+ (t +:+ u).
Proof. induction s as [|a s IH]; [done|]. by rewrite !app_String, IH. Qed.

Lemma startswith_app (p s : string) :
  startswith p s = true ↔ ∃ r, s = p +:+ r.
Proof.
  revert s. induction p as [|a p IH]; intros s; simpl.
  - split; [intros _; exists s; reflexivity | done].
  - destruct s as [|b s]; [split; [done | intros [r Hr]; discriminate Hr]|].
    unfold eqc. case_bool_decide as Hab; simpl.
    + subst b. rewrite IH. split; intros [r Hr]; exists r.
      * by rewrite app_String, <- Hr.
      * rewrite app_String in Hr. congruence.
    + split; [done|]. intros [r Hr]. rewrite app_String in Hr. congruence.
Qed.

Lemma eqc_true a b : eqc a b = true ↔ a = b.
Proof. unfold eqc. apply bool_decide_eq_true. Qed.

Lemma eqc_false a b : eqc a b = false ↔ a ≠ b.
Proof. unfold eqc. apply bool_decide_eq_false. Qed.

Lemma eqc_refl a : eqc a a = true.
Proof. by apply eqc_true. Qed.

Lemma has_char_app c (s t : string) :
  has_char c (s +:+ t) = has_char c s || has_char c t.
Proof.
  induction s as [|a s IH]; [done|].
  rewrite app_String. simpl. rewrite IH. by rewrite orb_assoc.
Qed.

Lemma all_chars_app p (s t : string) :
  all_chars p (s +:+ t) = all_chars p s && all_chars p t.
Proof.
  induction s as [|a s IH]; [done|].
  rewrite app_String. simpl. rewrite IH. by rewrite andb_assoc.
Qed.

(** [has_char] as the failure of [all_chars] *)
Lemma has_char_all c (s : string) :
  has_char c s = negb (all_chars (fun a => negb (eqc a c)) s).
Proof.
  induction s as [|a s IH]; [done|]. simpl. rewrite IH.
  by destruct (eqc a c).
Qed.

Lemma span_app p (s : string) :
  (span p s).1 +:+ (span p s).2 = s.
Proof.
  induction s as [|a s IH]; [done|]. simpl.
  destruct (p a); [done|].
  destruct (span p s) as [l r]. simpl in *. by rewrite app_String, IH.
Qed.

Lemma span_fst_all p (s : string) :
  all_chars (fun a => negb (p a)) (span p s).1 = true.
Proof.
  induction s as [|a s IH]; [done|]. simpl.
  destruct (p a) eqn:Hp; [done|].
  destruct (span p s) as [l r]. simpl in *. by rewrite Hp, IH.
Qed.

Lemma span_snd_head p (s : string) :
  starts_with_or_empty p (span p s).2 = true.
Proof.
  induction s as [|a s IH]; [done|]. simpl.
  destruct (p a) eqn:Hp; [by simpl|].
  by destruct (span p s) as [l r].
Qed.

Lemma span_all_app p (l r : string) :
  all_chars (fun a => negb (p a)) l = true →
  starts_with_or_empty p r = true →
  span p (l +:+ r) = (l, r).
Proof.
  intros Hl Hr. induction l as [|a l IH]; simpl in *.
  - destruct r as [|b r]; [done|]. simpl in *. by rewrite Hr.
  - apply andb_true_iff in Hl as [Ha Hl]. rewrite ?app_String. simpl.
    apply negb_true_iff in Ha. rewrite Ha. by rewrite (IH Hl).
Qed.

Lemma span_none p (s : string) :
  all_chars (fun a => negb (p a)) s = true → span p s = (s, "").
Proof.
  intros H. rewrite <- (app_empty_r s) at 1. by apply span_all_app.
Qed.

Lemma all_chars_impl (p q : ascii -> bool) (s : string) :
  (∀ a, p a = true → q a = true) →
  all_chars p s = true → all_chars q s = true.
Proof.
  intros Hpq. induction s as [|a s IH]; [done|]. simpl.
  intros [Ha Hs]%andb_true_iff. by rewrite (Hpq _ Ha), (IH Hs).
Qed.

Lemma split1_absent c (s : string) :
  has_char c s = false → split1 c s = (s, "").
Proof.
  intros H. unfold split1. rewrite span_none; [done|].
  rewrite has_char_all in H. apply negb_false_iff in H.
  eapply all_chars_impl; [|exact H]. intros a Ha. simpl in Ha.
  apply negb_true_iff, eqc_false in Ha. apply negb_true_iff, eqc_false. congruence.
Qed.

End StrFacts.

(** *** Initial segments and character-wise preservation *)

Section PrefixFacts.

Ltac each_ascii a := destruct a as [[] [] [] [] [] [] [] []]; reflexivity.

Lemma lower_char_idem a : lower_char (lower_char a) = lower_char a.
Proof. each_ascii a. Qed.

Lemma is_unsafe_lower a : is_unsafe (lower_char a) = is_unsafe a.
Proof. each_ascii a. Qed.

Lemma is_netloc_delim_lower a : is_netloc_delim (lower_char a) = is_netloc_delim a.
Proof. each_ascii a. Qed.

Lemma eqc_lower_open a : eqc (lower_char a) "[" = eqc a "[".
Proof. each_ascii a. Qed.

Lemma eqc_lower_close a : eqc (lower_char a) "]" = eqc a "]".
Proof. each_ascii a. Qed.

Lemma is_prefix_refl (s : string) : is_prefix s s.
Proof. exists "". by rewrite app_empty_r. Qed.

Lemma is_prefix_trans (x y z : string) :
  is_prefix x y → is_prefix y z → is_prefix x z.
Proof.
  intros [t ->] [u ->]. exists (t +:+ u). by rewrite app_assoc_str.
Qed.

Lemma all_chars_prefix q (x s : string) :
  is_prefix x s → all_chars q s = true → all_chars q x = true.
Proof.
  intros [t ->]. rewrite all_chars_app. by intros [H _]%andb_true_iff.
Qed.

Lemma head_prefix p (x s : string) :
  is_prefix x s → starts_with_or_empty p s = true →
  starts_with_or_empty p x = true.
Proof. intros [t ->]. by destruct x. Qed.

Lemma span_fst_prefix p (s : string) : is_prefix (span p s).1 s.
Proof. exists (span p s).2. by rewrite span_app. Qed.

Lemma split1_fst_prefix c (s : string) : is_prefix (split1 c s).1 s.
Proof.
  unfold split1. pose proof (span_fst_prefix (eqc c) s) as H.
  by destruct (span (eqc c) s).
Qed.

Lemma rstrip_prefix p (s : string) : is_prefix (rstrip p s) s.
Proof.
  induction s as [|a s [t IH]]; [by exists ""|]. simpl.
  destruct (rstrip p s) as [|b r] eqn:Hr.
  - destruct (p a); [by exists (String a s)|]. exists s. by rewrite app_String.
  - exists t. rewrite app_String. by rewrite <- IH.
Qed.

Lemma rsplit_after_app c (s h t : string) :
  rsplit_after c s = Some (h, t) → s = h +:+ t.
Proof.
  revert h t. induction s as [|a s IH]; intros h t; [done|]. simpl.
  destruct (rsplit_after c s) as [[h' t']|].
  - intros [= <- <-]. rewrite app_String. by rewrite <- (IH h' t').
  - destruct (eqc a c); [|done]. by intros [= <- <-].
Qed.

Lemma splitparams_fst_prefix (u : string) : is_prefix (splitparams u).1 u.
Proof.
  unfold splitparams. destruct (rsplit_after "/" u) as [[h t]|] eqn:Hr.
  - apply rsplit_after_app in Hr as ->.
    destruct (has_char ";" t); [|apply is_prefix_refl].
    destruct (split1_fst_prefix ";" t) as [x Hx].
    destruct (split1 ";" t) as [l r]. simpl in *.
    exists x. rewrite app_assoc_str. by rewrite <- Hx.
  - apply split1_fst_prefix.
Qed.

Lemma all_chars_span_snd q p (s : string) :
  all_chars q s = true → all_chars q (span p s).2 = true.
Proof.
  rewrite <- (span_app p s) at 1. rewrite all_chars_app.
  by intros [_ H]%andb_true_iff.
Qed.

Lemma all_chars_remove q p (s : string) :
  all_chars q s = true → all_chars q (remove_chars p s) = true.
Proof.
  induction s as [|a s IH]; [done|]. simpl.
  intros [Ha Hs]%andb_true_iff. destruct (p a); simpl; [auto|].
  by rewrite Ha, IH.
Qed.

Lemma remove_chars_clean p (s : string) :
  all_chars (fun a => negb (p a)) (remove_chars p s) = true.
Proof.
  induction s as [|a s IH]; [done|]. simpl.
  destruct (p a) eqn:Hp; [done|]. simpl. by rewrite Hp, IH.
Qed.

Lemma remove_chars_id p (s : string) :
  all_chars (fun a => negb (p a)) s = true → remove_chars p s = s.
Proof.
  induction s as [|a s IH]; [done|]. simpl.
  intros [Ha Hs]%andb_true_iff. apply negb_true_iff in Ha.
  by rewrite Ha, IH.
Qed.

Lemma all_chars_lower q (s : string) :
  (∀ a, q (lower_char a) = q a) →
  all_chars q (lower s) = all_chars q s.
Proof.
  intros Hq. induction s as [|a s IH]; [done|]. simpl. by rewrite Hq, IH.
Qed.

Lemma all_chars_drop q n (s : string) :
  all_chars q s = true → all_chars q (drop n s) = true.
Proof.
  revert s. induction n as [|n IH]; intros [|a s]; simpl; try done.
  intros [_ Hs]%andb_true_iff. by apply IH.
Qed.

Lemma lower_idem (s : string) : lower (lower s) = lower s.
Proof.
  induction s as [|a s IH]; [done|]. simpl. by rewrite lower_char_idem, IH.
Qed.

Lemma lower_drop n (s : string) : lower (drop n s) = drop n (lower s).
Proof.
  revert s. induction n as [|n IH]; intros [|a s]; simpl; try done.
Qed.

Lemma lower_app (s t : string) : lower (s +:+ t) = lower s +:+ lower t.
Proof.
  induction s as [|a s IH]; [done|]. rewrite app_String. simpl.
  by rewrite IH, app_String.
Qed.

Lemma has_char_lower c (s : string) :
  (∀ a, eqc (lower_char a) c = eqc a c) →
  has_char c (lower s) = has_char c s.
Proof.
  intros Hc. induction s as [|a s IH]; [done|]. simpl. by rewrite Hc, IH.
Qed.

Lemma startswith_prefix (x h s : string) :
  is_prefix h s → startswith x h = true → startswith x s = true.
Proof.
  intros [t ->] [r ->]%startswith_app. apply startswith_app.
  exists (r +:+ t). by rewrite app_assoc_str.
Qed.

Lemma rstrip_all p (s : string) :
  all_chars p s = true → rstrip p s = "".
Proof.
  induction s as [|a s IH]; [done|]. simpl.
  intros [Ha Hs]%andb_true_iff. by rewrite (IH Hs), Ha.
Qed.

Lemma rstrip_idem p (s : string) : rstrip p (rstrip p s) = rstrip p s.
Proof.
  induction s as [|a s IH]; [done|]. simpl.
  destruct (rstrip p s) as [|b r] eqn:Hr.
  - destruct (p a) eqn:Hp; [done|]. simpl. by rewrite Hp.
  - change (rstrip p (String a (String b r)))
      with (match rstrip p (String b r) with
            | "" => if p a then "" else String a ""
            | x => String a x end).
    by rewrite IH.
Qed.

Lemma rstrip_app_all p (s t : string) :
  all_chars p t = true → rstrip p (s +:+ t) = rstrip p s.
Proof.
  intros Ht. induction s as [|a s IH].
  - by rewrite rstrip_all.
  - rewrite app_String. simpl. by rewrite IH.
Qed.

End PrefixFacts.

(** *** Facts about keys *)

Section KeyFacts.

Lemma split1_if c (s : string) :
  (if has_char c s then split1 c s else (s, "")) = split1 c s.
Proof.
  destruct (has_char c s) eqn:H; [done|]. by rewrite split1_absent.
Qed.

Lemma urlsplit_http (sch r : string) :
  is_http sch →
  urlsplit (sch +:+ "://" +:+ r) "" =
    let rest := (span is_netloc_delim (remove_chars is_unsafe r)).2 in
    if unbalanced_brackets (http_authority r)
    then Raise (ValueError "Invalid IPv6 URL")
    else Ok (mkSplit sch (http_authority r)
               (split1 "?" (split1 "#" rest).1).1
               (split1 "?" (split1 "#" rest).1).2
               (split1 "#" rest).2).
Proof.
  intros Hs. unfold urlsplit, http_authority.
  assert (lstrip is_c0_or_space (sch +:+ "://" +:+ r) = sch +:+ "://" +:+ r) as ->
    by (by destruct Hs as [-> | ->]).
  assert (remove_chars is_unsafe (sch +:+ "://" +:+ r)
          = sch +:+ "://" +:+ remove_chars is_unsafe r) as ->
    by (by destruct Hs as [-> | ->]).
  assert (split_scheme (sch +:+ "://" +:+ remove_chars is_unsafe r)
          = Some (sch, "//" +:+ remove_chars is_unsafe r)) as ->
    by (by destruct Hs as [-> | ->]).
  change (startswith "//" ("//" +:+ remove_chars is_unsafe r)) with true.
  cbv iota. unfold splitnetloc.
  change (drop 2 ("//" +:+ remove_chars is_unsafe r)) with (remove_chars is_unsafe r).
  destruct (span is_netloc_delim (remove_chars is_unsafe r)) as [n rest]. simpl.
  destruct (unbalanced_brackets n); [done|]. simpl.
  rewrite !split1_if.
  destruct (split1 "#" rest) as [u f]. simpl. rewrite split1_if.
  by destruct (split1 "?" u) as [p q].
Qed.

(** [normalize_url] on a URL with an explicit http or https scheme *)
Lemma normalize_url_http (sch r : string) :
  is_http sch →
  normalize_url (sch +:+ "://" +:+ r) = http_key sch r.
Proof.
  intros Hs. unfold normalize_url.
  assert (bool_decide (sch +:+ "://" +:+ r = "") = false) as ->
    by (by destruct Hs as [-> | ->]).
  assert (startswith "http://" (sch +:+ "://" +:+ r)
          || startswith "https://" (sch +:+ "://" +:+ r) = true) as ->
    by (by destruct Hs as [-> | ->]).
  unfold urlparse. rewrite (urlsplit_http _ _ Hs). unfold http_key, http_path.
  cbv zeta.
  destruct (unbalanced_brackets (http_authority r)); [done|]. simpl.
  assert (mem sch uses_params = true) as -> by (by destruct Hs as [-> | ->]).
  simpl.
  destruct (has_char ";" _); [|done].
  by destruct (splitparams _) as [p' pa].
Qed.

(** [normalize_url] on a URL without scheme: "https://" is put in front *)
Lemma normalize_url_bare (s : string) :
  s ≠ "" → http_keyed s = false →
  normalize_url s = http_key "https" s.
Proof.
  intros Hne H1. rewrite <- (normalize_url_http "https" s) by (by right).
  unfold normalize_url at 1. rewrite bool_decide_eq_false_2 by done.
  unfold http_keyed in H1. rewrite H1.
  unfold normalize_url.
  by change (startswith "https://" ("https" +:+ "://" +:+ s)) with true;
    rewrite orb_true_r.
Qed.

(** Every non-empty input is handled as some scheme and remainder. *)
Lemma normalize_url_shape (s : string) :
  s ≠ "" → ∃ sch r, is_http sch ∧ normalize_url s = http_key sch r
     ∧ (s = sch +:+ "://" +:+ r ∨ (http_keyed s = false ∧ sch = "https" ∧ r = s)).
Proof.
  intros Hne. destruct (http_keyed s) eqn:Hk.
  - unfold http_keyed in Hk. apply orb_true_iff in Hk as [H|H];
      apply startswith_app in H as [r ->].
    + exists "http", r. split; [by left|]. split; [|by left].
      by apply (normalize_url_http "http"); left.
    + exists "https", r. split; [by right|]. split; [|by left].
      by apply (normalize_url_http "https"); right.
  - exists "https", s. split; [by right|]. split; [|by right].
    by apply normalize_url_bare.
Qed.

End KeyFacts.

(** *** A key is stable under a second normalization *)

Section KeyStable.

(** The path found after the authority is empty or begins with a slash, and
    holds no '#' or '?'. *)
Lemma http_path_prefix (r : string) :
  is_prefix (http_path r)
    (split1 "?" (split1 "#" (span is_netloc_delim (remove_chars is_unsafe r)).2).1).1.
Proof.
  unfold http_path. cbv zeta. destruct (has_char ";" _).
  - apply splitparams_fst_prefix.
  - apply is_prefix_refl.
Qed.

Lemma split1_fst_clean c (s : string) :
  all_chars (not_char c) (split1 c s).1 = true.
Proof.
  unfold split1. pose proof (span_fst_all (eqc c) s) as H.
  by destruct (span (eqc c) s).
Qed.

Lemma http_path_no_fragment (r : string) :
  all_chars (not_char "#") (http_path r) = true.
Proof.
  eapply all_chars_prefix; [apply http_path_prefix|].
  eapply all_chars_prefix; [apply split1_fst_prefix|].
  apply split1_fst_clean.
Qed.

Lemma http_path_no_query (r : string) :
  all_chars (not_char "?") (http_path r) = true.
Proof.
  eapply all_chars_prefix; [apply http_path_prefix|].
  apply split1_fst_clean.
Qed.

Lemma http_path_head (r : string) :
  starts_with_or_empty (eqc "/") (http_path r) = true.
Proof.
  eapply head_prefix; [apply http_path_prefix|].
  pose proof (span_snd_head is_netloc_delim (remove_chars is_unsafe r)) as Hd.
  pose proof (split1_fst_prefix "#" (span is_netloc_delim (remove_chars is_unsafe r)).2) as P1.
  pose proof (split1_fst_clean "#" (span is_netloc_delim (remove_chars is_unsafe r)).2) as C1.
  set (u := (split1 "#" _).1) in *.
  pose proof (split1_fst_prefix "?" u) as P2.
  pose proof (split1_fst_clean "?" u) as C2.
  set (v := (split1 "?" u).1) in *.
  pose proof (head_prefix _ _ _ (is_prefix_trans _ _ _ P2 P1) Hd) as Hv.
  pose proof (all_chars_prefix _ _ _ P2 C1) as C1'.
  destruct v as [|a v]; [done|]. simpl in *.
  apply andb_true_iff in C1' as [Ha1 _]. apply andb_true_iff in C2 as [Ha2 _].
  unfold is_netloc_delim in Hv. unfold not_char in *.
  destruct (eqc a "/") eqn:E; [apply eqc_true in E as ->; done|].
  destruct (eqc a "?") eqn:E2; [apply eqc_true in E2 as ->; done|].
  destruct (eqc a "#") eqn:E3; [apply eqc_true in E3 as ->; done|]. done.
Qed.

Lemma http_path_safe (r : string) :
  all_chars (fun a => negb (is_unsafe a)) (http_path r) = true.
Proof.
  eapply all_chars_prefix; [apply http_path_prefix|].
  eapply all_chars_prefix; [apply split1_fst_prefix|].
  eapply all_chars_prefix; [apply split1_fst_prefix|].
  apply all_chars_span_snd, remove_chars_clean.
Qed.

Lemma http_authority_safe (r : string) :
  all_chars (fun a => negb (is_unsafe a)) (http_authority r) = true.
Proof.
  eapply all_chars_prefix; [apply span_fst_prefix|]. apply remove_chars_clean.
Qed.

Lemma http_authority_no_delim (r : string) :
  all_chars (fun a => negb (is_netloc_delim a)) (http_authority r) = true.
Proof. apply span_fst_all. Qed.

Lemma strip_www_all q (s : string) :
  all_chars q s = true → all_chars q (strip_www s) = true.
Proof.
  unfold strip_www. destruct (startswith "www." s); [apply all_chars_drop|done].
Qed.

Lemma has_char_strip_www c (s : string) :
  has_char c "www." = false → has_char c (strip_www s) = has_char c s.
Proof.
  intros Hc. unfold strip_www. destruct (startswith "www." s) eqn:Hw; [|done].
  apply startswith_app in Hw as [t ->].
  change (drop 4 ("www." +:+ t)) with t.
  by rewrite has_char_app, Hc.
Qed.

Lemma unbalanced_host (n : string) :
  unbalanced_brackets (strip_www (lower n)) = unbalanced_brackets n.
Proof.
  unfold unbalanced_brackets.
  rewrite !has_char_strip_www by done.
  rewrite (has_char_lower "[") by apply eqc_lower_open.
  by rewrite (has_char_lower "]") by apply eqc_lower_close.
Qed.

Lemma strip_www_lower_fixed (n : string) :
  startswith "www." (strip_www (lower n)) = false →
  strip_www (lower (strip_www (lower n))) = strip_www (lower n).
Proof.
  intros Hw.
  assert (lower (strip_www (lower n)) = strip_www (lower n)) as ->.
  { unfold strip_www. destruct (startswith "www." (lower n)).
    - by rewrite lower_drop, lower_idem.
    - apply lower_idem. }
  unfold strip_www at 1. by rewrite Hw.
Qed.

Lemma all_not_has c (s : string) :
  all_chars (not_char c) s = true → has_char c s = false.
Proof.
  intros H. rewrite has_char_all. apply negb_false_iff.
  eapply all_chars_impl; [|exact H]. intros a. unfold not_char.
  intros Ha%negb_true_iff%eqc_false. apply negb_true_iff, eqc_false. congruence.
Qed.

(** A key is parsed back into the host and path it was built from. *)
Lemma http_key_again (sch r k : string) :
  http_key sch r = Ok k →
  has_char ";" k = false →
  startswith "www." (drop (String.length sch + 3) k) = false →
  http_key sch (drop (String.length sch + 3) k) = Ok k.
Proof.
  unfold http_key at 1.
  destruct (unbalanced_brackets (http_authority r)) eqn:Hb; [done|].
  intros [= <-].
  set (h := strip_www (lower (http_authority r))).
  set (p := rstrip (eqc "/") (http_path r)).
  assert (drop (String.length sch + 3) (sch +:+ "://" +:+ h +:+ p) = h +:+ p) as ->.
  { clear. induction sch as [|a sch IH]; [done|]. by rewrite app_String. }
  intros Hsemi Hwww.
  assert (is_prefix p (http_path r)) as Pp by apply rstrip_prefix.
  assert (all_chars (fun a => negb (is_unsafe a)) (h +:+ p) = true) as Hsafe.
  { rewrite all_chars_app. apply andb_true_iff. split.
    - apply strip_www_all. rewrite all_chars_lower.
      + apply http_authority_safe.
      + intros a. by rewrite is_unsafe_lower.
    - eapply all_chars_prefix; [exact Pp|]. apply http_path_safe. }
  assert (span is_netloc_delim (h +:+ p) = (h, p)) as Hspan.
  { apply span_all_app.
    - apply strip_www_all. rewrite all_chars_lower.
      + apply http_authority_no_delim.
      + intros a. by rewrite is_netloc_delim_lower.
    - pose proof (head_prefix _ _ _ Pp (http_path_head r)) as Hh.
      destruct p as [|a p']; [done|]. simpl in *.
      apply eqc_true in Hh as <-. done. }
  assert (has_char "#" p = false) as Hf.
  { apply all_not_has. eapply all_chars_prefix; [exact Pp|].
    apply http_path_no_fragment. }
  assert (has_char "?" p = false) as Hq.
  { apply all_not_has. eapply all_chars_prefix; [exact Pp|].
    apply http_path_no_query. }
  assert (has_char ";" p = false) as Hs.
  { rewrite !has_char_app in Hsemi.
    repeat (apply orb_false_iff in Hsemi as [? Hsemi]). done. }
  unfold http_key, http_authority, http_path.
  rewrite (remove_chars_id _ _ Hsafe), Hspan. simpl.
  rewrite (split1_absent _ _ Hf). simpl. rewrite (split1_absent _ _ Hq). simpl.
  rewrite Hs. subst h. rewrite unbalanced_host, Hb.
  rewrite strip_www_lower_fixed.
  - subst p. by rewrite rstrip_idem.
  - destruct (startswith "www." (strip_www (lower (http_authority r)))) eqn:Hw; [|done].
    rewrite <- Hwww. symmetry. eapply startswith_prefix; [|exact Hw].
    by eexists.
Qed.

End KeyStable.

(** *** Keys with an explicit scheme *)

Lemma http_key_form (sch r k : string) :
  http_key sch r = Ok k → ∃ x, k = sch +:+ "://" +:+ x.
Proof.
  unfold http_key. destruct (unbalanced_brackets _); [done|].
  intros [= <-]. eexists. reflexivity.
Qed.

Lemma drop_scheme (sch x : string) :
  drop (String.length sch + 3) (sch +:+ "://" +:+ x) = x.
Proof. induction sch as [|a sch IH]; [done|]. by rewrite app_String. Qed.

Lemma www_keyed_http (sch x : string) :
  is_http sch → www_keyed (sch +:+ "://" +:+ x) = startswith "www." x.
Proof.
  intros [-> | ->]; unfold www_keyed.
  - change (startswith "http://www." ("http" +:+ "://" +:+ x))
      with (startswith "www." x).
    change (startswith "https://www." ("http" +:+ "://" +:+ x)) with false.
    apply orb_false_r.
  - change (startswith "https://www." ("https" +:+ "://" +:+ x))
      with (startswith "www." x).
    change (startswith "http://www." ("https" +:+ "://" +:+ x)) with false.
    done.
Qed.


(** *** Variants of a URL with the same key *)

Section KeyVariants.

Lemma has_not_all c (s : string) :
  has_char c s = false → all_chars (not_char c) s = true.
Proof.
  rewrite has_char_all. intros H%negb_false_iff.
  eapply all_chars_impl; [|exact H]. intros a. unfold not_char.
  intros Ha%negb_true_iff%eqc_false. apply negb_true_iff, eqc_false. congruence.
Qed.

Lemma remove_chars_app p (s t : string) :
  remove_chars p (s +:+ t) = remove_chars p s +:+ remove_chars p t.
Proof.
  induction s as [|a s IH]; [done|]. rewrite app_String. simpl.
  destruct (p a); [done|]. by rewrite IH, app_String.
Qed.

Lemma span_app_l p (s t : string) :
  all_chars (fun a => negb (p a)) s = false →
  span p (s +:+ t) = ((span p s).1, (span p s).2 +:+ t).
Proof.
  induction s as [|a s IH]; [done|]. rewrite app_String. simpl.
  destruct (p a) eqn:Hp; simpl; [done|].
  intros Hs. rewrite (IH Hs). by destruct (span p s).
Qed.

Lemma span_app_r p (s t : string) :
  all_chars (fun a => negb (p a)) s = true →
  span p (s +:+ t) = (s +:+ (span p t).1, (span p t).2).
Proof.
  induction s as [|a s IH].
  { intros _. change ("" +:+ t) with t. by destruct (span p t). }
  rewrite app_String. simpl.
  intros [Ha Hs]%andb_true_iff. apply negb_true_iff in Ha. rewrite Ha.
  by rewrite (IH Hs).
Qed.

Lemma split1_slash (c : ascii) (s e : string) :
  c ≠ "/"%char → slash_or_empty e →
  ∃ e', slash_or_empty e' ∧ (split1 c (s +:+ e)).1 = (split1 c s).1 +:+ e'.
Proof.
  intros Hc He. unfold split1.
  destruct (all_chars (fun a => negb (eqc c a)) s) eqn:Hs.
  - rewrite (span_app_r _ _ _ Hs), (span_none _ _ Hs). exists e. split; [done|].
    destruct He as [-> | ->]; simpl; [done|].
    apply eqc_false in Hc. by rewrite Hc.
  - rewrite (span_app_l _ _ _ Hs). exists "". split; [by left|].
    destruct (span (eqc c) s). simpl. by rewrite app_empty_r.
Qed.

Lemma http_path_semicolon (r : string) :
  has_char ";" r = false →
  has_char ";" (split1 "?" (split1 "#"
     (span is_netloc_delim (remove_chars is_unsafe r)).2).1).1 = false.
Proof.
  intros H%has_not_all. apply all_not_has.
  eapply all_chars_prefix; [apply split1_fst_prefix|].
  eapply all_chars_prefix; [apply split1_fst_prefix|].
  by apply all_chars_span_snd, all_chars_remove.
Qed.

(** A trailing slash does not change the key, for a URL without ';'. *)
Lemma http_key_trailing_slash (sch r : string) :
  has_char ";" r = false →
  http_key sch (r +:+ "/") = http_key sch r.
Proof.
  intros Hsemi.
  assert (has_char ";" (r +:+ "/") = false) as Hsemi'
    by (by rewrite has_char_app, Hsemi).
  pose proof (http_path_semicolon _ Hsemi) as H1.
  pose proof (http_path_semicolon _ Hsemi') as H2.
  unfold http_key, http_authority, http_path. cbv zeta. rewrite H1, H2.
  clear H1 H2 Hsemi Hsemi'.
  rewrite remove_chars_app.
  change (remove_chars is_unsafe "/") with "/".
  set (r' := remove_chars is_unsafe r).
  assert (∃ e, slash_or_empty e ∧
            span is_netloc_delim (r' +:+ "/")
            = ((span is_netloc_delim r').1, (span is_netloc_delim r').2 +:+ e)
            ∧ (e = "" → (span is_netloc_delim r').2 = "")) as (e & He & -> & Hemp).
  { destruct (all_chars (fun a => negb (is_netloc_delim a)) r') eqn:Hs.
    - rewrite (span_app_r _ _ _ Hs), (span_none _ _ Hs). simpl.
      exists "/". rewrite app_empty_r. by split; [right|].
    - rewrite (span_app_l _ _ _ Hs). exists "/". by split; [right|]. }
  clear Hemp. simpl.
  destruct (unbalanced_brackets (span is_netloc_delim r').1); [done|].
  destruct (split1_slash "#" (span is_netloc_delim r').2 e) as (e1 & He1 & ->);
    [done|done|].
  destruct (split1_slash "?" (split1 "#" (span is_netloc_delim r').2).1 e1)
    as (e2 & He2 & ->); [done|done|].
  rewrite rstrip_app_all; [done|]. by destruct He2 as [-> | ->].
Qed.

(** A leading "www." does not change the key, when the host does not begin
    with "www." already. *)
Lemma http_key_leading_www (sch r : string) :
  host_www r = false →
  http_key sch ("www." +:+ r) = http_key sch r.
Proof.
  unfold host_www, http_key, http_authority, http_path. intros Hw.
  change (remove_chars is_unsafe ("www." +:+ r))
    with ("www." +:+ remove_chars is_unsafe r).
  set (r' := remove_chars is_unsafe r) in *.
  assert (span is_netloc_delim ("www." +:+ r')
          = ("www." +:+ (span is_netloc_delim r').1, (span is_netloc_delim r').2))
    as -> by (by apply (span_app_r is_netloc_delim "www.")).
  cbv zeta. simpl fst. simpl snd.
  set (n := (span is_netloc_delim r').1).
  change (unbalanced_brackets ("www." +:+ n)) with (unbalanced_brackets n).
  destruct (unbalanced_brackets n); [done|].
  change (strip_www (lower ("www." +:+ n))) with (lower n).
  assert (startswith "www." (lower n) = false) as Hn.
  { destruct (startswith "www." (lower n)) eqn:E; [|done].
    rewrite <- Hw. symmetry. eapply startswith_prefix; [|exact E].
    exists (lower (span is_netloc_delim r').2).
    subst n. by rewrite <- lower_app, span_app. }
  unfold strip_www. by rewrite Hn.
Qed.

Lemma http_authority_no_char c (r : string) :
  has_char c r = false → has_char c (http_authority r) = false.
Proof.
  intros H%has_not_all. apply all_not_has.
  eapply all_chars_prefix; [apply span_fst_prefix|].
  by apply all_chars_remove.
Qed.

Lemma http_key_ok (sch r : string) :
  has_char "[" r = false → has_char "]" r = false →
  ∃ x, http_key sch r = Ok (sch +:+ "://" +:+ x).
Proof.
  intros H1 H2. unfold http_key, unbalanced_brackets.
  rewrite (http_authority_no_char _ _ H1), (http_authority_no_char _ _ H2).
  simpl. eexists. reflexivity.
Qed.

Lemma http_key_outcome (sch r : string) :
  (∃ x, http_key sch r = Ok (sch +:+ "://" +:+ x))
  ∨ http_key sch r = Raise (ValueError "Invalid IPv6 URL").
Proof.
  unfold http_key. destruct (unbalanced_brackets _); [by right|].
  left. eexists. reflexivity.
Qed.

Lemma http_keyed_scheme (sch x : string) :
  is_http sch → http_keyed (sch +:+ "://" +:+ x) = true.
Proof. by intros [-> | ->]. Qed.

End KeyVariants.

(** *** Facts about the frontier queue *)

Section QueueFacts.

Lemma filter_nil_iff_aux (l : list string) (x : string) :
  x ∉ l → filter (fun y => y = x) l = [].
Proof.
  induction l as [|y l IH]; [done|].
  intros [Hne Hl]%not_elem_of_cons.
  rewrite filter_cons_False by (intros ->; done). by apply IH.
Qed.

Lemma first_occurrences_subseteq (l : list string) :
  first_occurrences l ⊆ l.
Proof.
  induction l as [|x l IH]; [done|]. simpl.
  intros y [->|Hy]%elem_of_cons; [left|right].
  apply list_elem_of_filter in Hy as [_ Hy]. by apply IH.
Qed.

Lemma filter_all (P : string → Prop) `{!∀ x, Decision (P x)} (l : list string) :
  (∀ x, x ∈ l → P x) → filter P l = l.
Proof.
  induction l as [|x l IH]; [done|]. intros Hall.
  rewrite filter_cons_True by (apply Hall; left).
  f_equal. apply IH. intros y Hy. apply Hall. by right.
Qed.

Lemma filter_comm (P Q : string → Prop)
    `{!∀ x, Decision (P x)} `{!∀ x, Decision (Q x)} (l : list string) :
  filter P (filter Q l) = filter Q (filter P l).
Proof.
  rewrite !list_filter_filter. apply list_filter_iff. intros x. tauto.
Qed.

(** filtering commutes with keeping first occurrences *)
Lemma filter_first_occurrences (Q : string → Prop) `{!∀ x, Decision (Q x)}
    (l : list string) :
  filter Q (first_occurrences l) = first_occurrences (filter Q l).
Proof.
  induction l as [|x l IH]; [done|]. simpl.
  destruct (decide (Q x)) as [Hq|Hq].
  - rewrite !filter_cons_True by done. simpl.
    by rewrite filter_comm, IH.
  - rewrite !filter_cons_False by done.
    rewrite filter_comm, IH. apply filter_all.
    intros y Hy Hyx. subst y.
    apply first_occurrences_subseteq, list_elem_of_filter in Hy as [Hy _].
    done.
Qed.

Lemma NoDup_first_occurrences (l : list string) : NoDup (first_occurrences l).
Proof.
  induction l as [|x l IH]; simpl; [constructor|].
  constructor; [|by apply NoDup_filter].
  by intros [Hx _]%list_elem_of_filter.
Qed.

Lemma elem_of_first_occurrences (l : list string) x :
  x ∈ first_occurrences l ↔ x ∈ l.
Proof.
  split; [apply first_occurrences_subseteq|].
  induction l as [|y l IH]; [done|]. simpl.
  intros [->|Hx]%elem_of_cons; [left|].
  destruct (decide (x = y)) as [->|Hne]; [left|right].
  apply list_elem_of_filter. auto.
Qed.

(** The loop of [add_to_queue] in closed form. *)
Lemma add_loop_spec (seen : gset string) (urls keys : list string) :
  normalize_all urls = Ok keys →
  ∀ (cq : gset string) (new : list string),
    add_loop seen urls cq new
    = Ok (new ++ first_occurrences
             (filter (fun k => k ≠ "" ∧ (k ∉ seen) ∧ (k ∉ cq)) keys)).
Proof.
  revert keys. induction urls as [|u urls IH]; intros keys Hk cq new.
  - injection Hk as <-. simpl. by rewrite app_nil_r.
  - simpl in Hk. destruct (normalize_url u) as [k|e] eqn:Hu; [|done]. simpl in Hk.
    destruct (normalize_all urls) as [ks|e] eqn:Hks; [|done]. simpl in Hk.
    injection Hk as <-. simpl. rewrite Hu. simpl.
    destruct (decide (k ≠ "" ∧ (k ∉ seen) ∧ (k ∉ cq))) as [Ha|Ha].
    + destruct Ha as (H1 & H2 & H3).
      rewrite bool_decide_eq_false_2, !bool_decide_eq_true_2 by done. simpl.
      rewrite (IH ks eq_refl). rewrite filter_cons_True by done. simpl.
      rewrite <- app_assoc. simpl. do 3 f_equal.
      rewrite filter_first_occurrences, list_filter_filter.
      f_equal. apply list_filter_iff. intros x.
      rewrite not_elem_of_union, not_elem_of_singleton. tauto.
    + rewrite filter_cons_False by done.
      assert (negb (bool_decide (k = "")) && bool_decide (k ∉ seen)
              && bool_decide (k ∉ cq) = false) as ->.
      { apply not_true_is_false. intros H.
        apply andb_true_iff in H as [H H3]. apply andb_true_iff in H as [H1 H2].
        apply Ha. apply negb_true_iff, bool_decide_eq_false in H1.
        apply bool_decide_eq_true in H2, H3. done. }
      by apply IH.
Qed.


Lemma load_queue_app (fs : files) (new : list string) :
  load_queue (mkFiles (blogs_jsonl fs) (queue_txt fs ++ new))
  = load_queue fs ++ filter (fun l => l ≠ "") (strip <$> new).
Proof. unfold load_queue. simpl. by rewrite fmap_app, filter_app. Qed.

Lemma occurrences_NoDup (k : string) (l : list string) :
  NoDup l → k ∈ l → occurrences k l = 1.
Proof.
  unfold occurrences. induction 1 as [|x l Hx Hl IH]; [by intros ?%elem_of_nil|].
  intros [->|Hk]%elem_of_cons.
  - rewrite filter_cons_True by done. simpl. f_equal.
    rewrite (filter_nil_iff_aux l x Hx). done.
  - rewrite filter_cons_False by (intros ->; done). by apply IH.
Qed.

End QueueFacts.

(** *** A key is a single line *)

(** The queue file is modelled by its lines; this is sound because a key
    holds no tab, carriage return or line feed. *)
Lemma normalize_url_single_line (s k : string) :
  normalize_url s = Ok k →
  all_chars (fun a => negb (is_unsafe a)) k = true.
Proof.
  intros Hk. destruct (decide (s = "")) as [-> | Hne].
  { by injection Hk as <-. }
  destruct (normalize_url_shape s Hne) as (sch & r & Hs & Hn & _).
  rewrite Hn in Hk. unfold http_key in Hk.
  destruct (unbalanced_brackets (http_authority r)); [done|].
  injection Hk as <-. rewrite !all_chars_app.
  apply andb_true_iff; split;
    [|apply andb_true_iff; split; [|apply andb_true_iff; split]].
  - by destruct Hs as [-> | ->].
  - done.
  - apply strip_www_all. rewrite all_chars_lower.
    + apply http_authority_safe.
    + intros a. by rewrite is_unsafe_lower.
  - eapply all_chars_prefix; [apply rstrip_prefix|]. apply http_path_safe.
Qed.

(** *** Facts about the node store pass *)

Section DedupFacts.

Lemma dict_get_None (k : string) (d : blog_dict) :
  dict_get k d = None ↔ k ∉ d.*1.
Proof.
  induction d as [|[k' v] d IH]; simpl.
  - split; [intros _; apply not_elem_of_nil | done].
  - case_bool_decide as Hk.
    + subst k'. split; [done|]. intros H. exfalso. apply H. left.
    + rewrite IH, not_elem_of_cons. split; [by split|by intros [_ ?]].
Qed.

Lemma dict_set_elem (k : string) (v : gmap string json) (d : blog_dict) e :
  e ∈ dict_set k v d → e = (k, v) ∨ e ∈ d.
Proof.
  induction d as [|[k' v'] d IH]; simpl.
  - intros ->%list_elem_of_singleton. by left.
  - case_bool_decide as Hk.
    + intros [->|He]%elem_of_cons; [by left|]. right. by right.
    + intros [->|He]%elem_of_cons; [right; left|].
      destruct (IH He) as [->|Hd]; [by left|]. right. by right.
Qed.

Lemma dict_set_keys_fresh (k : string) (v : gmap string json) (d : blog_dict) :
  k ∉ d.*1 → dict_set k v d = d ++ [(k, v)].
Proof.
  induction d as [|[k' v'] d IH]; simpl; [done|].
  intros [Hne Hd]%not_elem_of_cons.
  rewrite bool_decide_eq_false_2 by done. by rewrite IH.
Qed.

Lemma dict_set_keys_present (k : string) (v : gmap string json) (d : blog_dict) :
  k ∈ d.*1 → (dict_set k v d).*1 = d.*1.
Proof.
  induction d as [|[k' v'] d IH]; [by intros ?%elem_of_nil|].
  cbn [dict_set]. rewrite fmap_cons. cbn [fst].
  case_bool_decide as Hk; [by subst|].
  intros [->|Hd]%elem_of_cons; [done|]. rewrite fmap_cons. cbn [fst].
  by rewrite IH.
Qed.

Lemma dict_set_NoDup (k : string) (v : gmap string json) (d : blog_dict) :
  NoDup d.*1 → NoDup (dict_set k v d).*1.
Proof.
  intros Hnd. destruct (decide (k ∈ d.*1)) as [Hin|Hout].
  - by rewrite dict_set_keys_present.
  - rewrite dict_set_keys_fresh, fmap_app by done. simpl.
    apply NoDup_app. split; [done|]. split; [|apply NoDup_singleton].
    by intros x Hx ->%list_elem_of_singleton.
Qed.

(** Every record the loop ends with was there at the start or is a whole
    record of the input, filed under its own key. *)
Lemma dedup_loop_whole replaces (lines : list store_line) :
  ∀ (d out : blog_dict),
    dedup_loop replaces lines d = Ok out →
    NoDup d.*1 →
    NoDup out.*1
    ∧ ∀ k b, (k, b) ∈ out →
        (k, b) ∈ d ∨ (Blog b ∈ lines ∧ blog_key b = Ok k ∧ k ≠ "").
Proof.
  induction lines as [|line lines IH]; intros d out Hrun Hnd.
  - injection Hrun as <-. split; [done|]. by left.
  - assert (∀ d', dedup_loop replaces lines d' = Ok out → NoDup d'.*1 →
        (∀ e, e ∈ d' → e ∈ d ∨ ∃ b, line = Blog b ∧ blog_key b = Ok e.1
                                    ∧ e.1 ≠ "" ∧ e.2 = b) →
        NoDup out.*1
        ∧ ∀ k b, (k, b) ∈ out →
            (k, b) ∈ d ∨ (Blog b ∈ line :: lines ∧ blog_key b = Ok k ∧ k ≠ ""))
      as Hstep.
    { intros d' Hrun' Hnd' Hd'. destruct (IH d' out Hrun' Hnd') as [Hn Hin].
      split; [done|]. intros k b Hkb.
      destruct (Hin k b Hkb) as [Hold|(Hl & Hk & Hne)].
      - destruct (Hd' _ Hold) as [?|(b' & -> & Hk & Hne & Hb)]; [by left|].
        simpl in *. subst b'. right. split; [left|done].
      - right. split; [by right|done]. }
    destruct line as [|v|blog]; simpl in Hrun.
    + apply (Hstep d Hrun Hnd). intros e He. by left.
    + done.
    + fold (blog_key blog) in Hrun.
      destruct (blog_key blog) as [url|err] eqn:Hkey; [|done]. simpl in Hrun.
      case_bool_decide as Hurl.
      { apply (Hstep d Hrun Hnd). intros e He. by left. }
      assert (∀ e, e ∈ dict_set url blog d →
                e ∈ d ∨ ∃ b, Blog blog = Blog b ∧ blog_key b = Ok e.1
                             ∧ e.1 ≠ "" ∧ e.2 = b) as Hset.
      { intros e [->|He]%dict_set_elem; [right|by left]. by exists blog. }
      destruct (dict_get url d) as [existing|].
      * destruct (replaces existing blog).
        -- apply (Hstep _ Hrun); [by apply dict_set_NoDup|done].
        -- apply (Hstep d Hrun Hnd). intros e He. by left.
      * apply (Hstep _ Hrun); [by apply dict_set_NoDup|done].
Qed.

(** Two records of one key: the second replaces the first or is dropped. *)
Lemma dedup_loop_pair replaces (e n : gmap string json) (K : string) :
  blog_key e = Ok K → blog_key n = Ok K → K ≠ "" →
  dedup_loop replaces [Blog e; Blog n] []
  = Ok [(K, if replaces e n then n else e)].
Proof.
  intros He Hn Hne. unfold blog_key in *. simpl. rewrite He. simpl.
  rewrite bool_decide_eq_false_2 by done. simpl. rewrite Hn. simpl.
  rewrite (bool_decide_eq_false_2 (K = "")) by done.
  rewrite !(bool_decide_eq_true_2 (K = K)) by done.
  by destruct (replaces e n).
Qed.

End DedupFacts.

(** *** Facts about the article count *)

Section CountFacts.

#[local] Arguments Z.max _ _ : simpl never.

Lemma count_matches_spec (matches : list string) :
  ∀ (seen : gset string) (count : Z),
    count = Z.of_nat (size seen) →
    count_matches matches seen count
    = (list_to_set matches ∪ seen,
       Z.of_nat (size (list_to_set matches ∪ seen : gset string))).
Proof.
  induction matches as [|m rest IH]; intros seen count ->; simpl.
  - by rewrite (left_id_L ∅ (∪)).
  - case_bool_decide as Hm.
    + rewrite IH.
      * rewrite (assoc_L (∪)), (comm_L (∪) (list_to_set rest) {[m]}). done.
      * rewrite size_union by (by apply disjoint_singleton_l).
        rewrite size_singleton. lia.
    + rewrite IH by done.
      assert (({[m]} ∪ list_to_set rest ∪ seen : gset string)
              = list_to_set rest ∪ seen) as ->; [|done].
      apply set_eq. intros x. rewrite !elem_of_union, elem_of_singleton.
      split; [intros [[->|]|]; auto | intros [|]; auto].
Qed.

Lemma count_posts_spec (patterns : list regex) (html : string) :
  ∀ (seen : gset string) (count : Z),
    count = Z.of_nat (size seen) →
    count_posts patterns html seen count
    = (list_to_set (mjoin ((fun p => findall IGNORECASE p html) <$> patterns))
         ∪ seen,
       Z.of_nat (size (list_to_set
                   (mjoin ((fun p => findall IGNORECASE p html) <$> patterns))
                 ∪ seen : gset string))).
Proof.
  induction patterns as [|p rest IH]; intros seen count Hc.
  - simpl. rewrite (left_id_L ∅ (∪)). by subst.
  - cbn [count_posts]. rewrite (count_matches_spec _ _ _ Hc). rewrite IH by done.
    rewrite fmap_cons. cbn [mjoin list_join]. rewrite list_to_set_app_L.
    rewrite (assoc_L (∪)).
    by rewrite (comm_L (∪) (list_to_set (mjoin _)) (list_to_set (findall _ _ _))).
Qed.

Lemma count_explicit_spec (patterns : list regex) (html : string) :
  ∀ count : Z,
    (0 ≤ count)%Z →
    count_explicit patterns html count
    = Z.max count
        (foldr Z.max 0%Z
           (omap (fun p => (fun m => int_of_digits (group m))
                             <$> search IGNORECASE p html) patterns)).
Proof.
  induction patterns as [|p rest IH]; intros count Hc; simpl.
  - lia.
  - destruct (search IGNORECASE p html) as [m|]; simpl; [|by apply IH].
    destruct (Z.ltb_spec count (int_of_digits (group m))); rewrite IH;
      unfold omap; lia.
Qed.

End CountFacts.


(** *** Facts about the signature tables *)

Section DetectFacts.
Import Re.

(** The loop returns the name of the first entry that matches. *)
Lemma detect_ssg_loop_first (generator html : string)
    (pre : list ssg_entry) (e : ssg_entry) (post : list ssg_entry) :
  (∀ e', e' ∈ pre → ssg_matches generator html e' = false) →
  ssg_matches generator html e = true →
  detect_ssg_loop (pre ++ e :: post) generator html = ssg_name e.
Proof.
  intros Hpre He. induction pre as [|x pre IH]; simpl.
  - unfold ssg_matches in He.
    destruct (any_search (meta_generator e) generator); [done|].
    by destruct (any_search (html_signatures e) html).
  - assert (ssg_matches generator html x = false) as Hx by (apply Hpre; left).
    unfold ssg_matches in Hx. apply orb_false_iff in Hx as [-> ->].
    apply IH. intros e' He'. apply Hpre. by right.
Qed.

Lemma detect_ssg_loop_none (generator html : string) (table : list ssg_entry) :
  (∀ e, e ∈ table → ssg_matches generator html e = false) →
  detect_ssg_loop table generator html = "unknown".
Proof.
  induction table as [|x table IH]; [done|]. intros Hall. simpl.
  assert (ssg_matches generator html x = false) as Hx by (apply Hall; left).
  unfold ssg_matches in Hx. apply orb_false_iff in Hx as [-> ->].
  apply IH. intros e He. apply Hall. by right.
Qed.

(** The comment loop finds nothing exactly when no entry has a matching
    signature, and what it finds carries the name of an entry. *)
Lemma detect_comment_loop_None (table : list comment_entry) (html : string) :
  detect_comment_loop table html = None
  ↔ forallb (fun e => negb (any_search (signatures e) html)) table = true.
Proof.
  induction table as [|x table IH]; simpl; [done|].
  destruct (any_search (signatures x) html); simpl; [done|apply IH].
Qed.

Lemma detect_comment_loop_name (table : list comment_entry) (html : string) r :
  detect_comment_loop table html = Some r →
  type r ∈ system_name <$> table.
Proof.
  induction table as [|x table IH]; simpl; [done|].
  destruct (any_search (signatures x) html).
  - intros [= <-]. left.
  - intros Hr. right. by apply IH.
Qed.

End DetectFacts.

(** *** Facts about the friend-link extractor *)

Section LinkFacts.
Import Re.

Lemma friend_link_Some (base_url href l : string) :
  friend_link base_url href = Ok (Some l)
  ↔ skipped_href href = false
    ∧ urljoin base_url href = Ok l
    ∧ is_likely_blog_url l = Ok true
    ∧ ∃ parsed_base parsed_link,
        urlparse base_url "" = Ok parsed_base
        ∧ urlparse l "" = Ok parsed_link
        ∧ netloc parsed_base ≠ netloc parsed_link.
Proof.
  unfold friend_link. destruct (skipped_href href).
  { split; [done|]. by intros [? _]. }
  destruct (urljoin base_url href) as [a|e]; simpl.
  2: { split; [done|]. by intros (_ & ? & _). }
  destruct (is_likely_blog_url a) as [[|]|e] eqn:Hlikely.
  - destruct (urlparse base_url "") as [pb|e]; simpl.
    2: { split; [done|]. intros (_ & _ & _ & ? & ? & ? & _). done. }
    destruct (urlparse a "") as [pl|e] eqn:Hpl; simpl.
    2: { split; [done|]. intros (_ & [= <-] & _ & ? & ? & _ & ? & _). congruence. }
    case_bool_decide as Hn.
    + split.
      * intros [= <-]. repeat split; try done. by exists pb, pl.
      * by intros (_ & [= <-] & _).
    + split; [done|]. intros (_ & [= <-] & _ & ? & ? & [= <-] & ? & ?).
      congruence.
  - split; [done|]. intros (_ & [= <-] & ? & _). congruence.
  - split; [done|]. intros (_ & [= <-] & ? & _). congruence.
Qed.

Lemma section_links_elem (base_url : string) (hrefs : list string) :
  ∀ links out, section_links base_url hrefs links = Ok out →
    ∀ l, l ∈ out
         ↔ l ∈ links ∨ ∃ href, href ∈ hrefs
                               ∧ friend_link base_url href = Ok (Some l).
Proof.
  induction hrefs as [|href rest IH]; intros links out Hrun l.
  - injection Hrun as <-. split; [by left|].
    intros [?|(? & ?%elem_of_nil & _)]; done.
  - simpl in Hrun.
    destruct (friend_link base_url href) as [[a|]|e] eqn:Hf; [| |done].
    + rewrite (IH _ _ Hrun l), elem_of_app, list_elem_of_singleton. split.
      * intros [[?| ->]|(h & Hh & Hl)]; [by left| |].
        -- right. exists href. split; [left|done].
        -- right. exists h. split; [by right|done].
      * intros [?|(h & [->|Hh]%elem_of_cons & Hl)]; [by left; left| |].
        -- left. right. congruence.
        -- right. by exists h.
    + rewrite (IH _ _ Hrun l). split.
      * intros [?|(h & Hh & Hl)]; [by left|].
        right. exists h. split; [by right|done].
      * intros [?|(h & [->|Hh]%elem_of_cons & Hl)]; [by left|congruence|].
        right. by exists h.
Qed.

Lemma all_section_links_elem (base_url : string) (sections : list string) :
  ∀ links out, all_section_links base_url sections links = Ok out →
    ∀ l, l ∈ out
         ↔ l ∈ links ∨ ∃ section href, section ∈ sections
                          ∧ href ∈ hrefs_of section
                          ∧ friend_link base_url href = Ok (Some l).
Proof.
  induction sections as [|section rest IH]; intros links out Hrun l.
  - injection Hrun as <-. split; [by left|].
    intros [?|(? & ? & ?%elem_of_nil & _)]; done.
  - simpl in Hrun.
    destruct (section_links base_url (hrefs_of section) links) as [mid|e] eqn:Hs;
      [|done].
    simpl in Hrun. rewrite (IH _ _ Hrun l), (section_links_elem _ _ _ _ Hs l).
    split.
    + intros [[?|(h & Hh & Hl)]|(s & h & Hsec & Hh & Hl)]; [by left| |].
      * right. exists section, h. split; [left|done].
      * right. exists s, h. split; [by right|done].
    + intros [?|(s & h & [->|Hsec]%elem_of_cons & Hh & Hl)]; [by left; left| |].
      * left. right. by exists h.
      * right. by exists s, h.
Qed.

End LinkFacts.

(** *** Facts about the domain and the base URL *)

Section SiteFacts.

Lemma urlparse_http (sch r : string) :
  is_http sch →
  unbalanced_brackets (http_authority r) = false →
  ∃ p, urlparse (sch +:+ "://" +:+ r) "" = Ok p
       ∧ scheme p = sch ∧ netloc p = http_authority r ∧ path p = http_path r.
Proof.
  intros Hs Hb. unfold urlparse. rewrite (urlsplit_http _ _ Hs). cbv zeta.
  rewrite Hb. simpl.
  assert (mem sch uses_params = true) as -> by (by destruct Hs as [-> | ->]).
  simpl. unfold http_path. cbv zeta.
  destruct (has_char ";" _).
  - destruct (splitparams _) as [p' pa]. by eexists.
  - by eexists.
Qed.

Lemma urlparse_http_raises (sch r : string) :
  is_http sch →
  unbalanced_brackets (http_authority r) = true →
  urlparse (sch +:+ "://" +:+ r) "" = Raise (ValueError "Invalid IPv6 URL").
Proof.
  intros Hs Hb. unfold urlparse. rewrite (urlsplit_http _ _ Hs). cbv zeta.
  by rewrite Hb.
Qed.

(** the authority of the text of a key after its scheme is the key's host *)
Lemma http_authority_key (r : string) :
  http_authority (key_host r +:+ rstrip (eqc "/") (http_path r)) = key_host r.
Proof.
  unfold key_host.
  set (h := strip_www (lower (http_authority r))).
  set (p := rstrip (eqc "/") (http_path r)).
  assert (is_prefix p (http_path r)) as Pp by apply rstrip_prefix.
  assert (all_chars (fun a => negb (is_unsafe a)) (h +:+ p) = true) as Hsafe.
  { rewrite all_chars_app. apply andb_true_iff. split.
    - apply strip_www_all. rewrite all_chars_lower.
      + apply http_authority_safe.
      + intros a. by rewrite is_unsafe_lower.
    - eapply all_chars_prefix; [exact Pp|]. apply http_path_safe. }
  assert (span is_netloc_delim (h +:+ p) = (h, p)) as Hspan.
  { apply span_all_app.
    - apply strip_www_all. rewrite all_chars_lower.
      + apply http_authority_no_delim.
      + intros a. by rewrite is_netloc_delim_lower.
    - pose proof (head_prefix _ _ _ Pp (http_path_head r)) as Hh.
      destruct p as [|a p']; [done|]. simpl in *.
      apply eqc_true in Hh as <-. done. }
  unfold http_authority. by rewrite (remove_chars_id _ _ Hsafe), Hspan.
Qed.

(** [get_domain] on a URL with an explicit http or https scheme *)
Lemma get_domain_http (sch r : string) :
  is_http sch →
  get_domain (sch +:+ "://" +:+ r)
  = if unbalanced_brackets (http_authority r)
    then Raise (ValueError "Invalid IPv6 URL")
    else Ok (key_host r).
Proof.
  intros Hs. unfold get_domain. rewrite (normalize_url_http _ _ Hs).
  unfold http_key. destruct (unbalanced_brackets (http_authority r)) eqn:Hb; [done|].
  simpl.
  destruct (urlparse_http sch (key_host r +:+ rstrip (eqc "/") (http_path r)) Hs)
    as (p & Hp & _ & Hn & _).
  { rewrite http_authority_key. unfold key_host. by rewrite unbalanced_host. }
  fold (key_host r). rewrite Hp. simpl. by rewrite Hn, http_authority_key.
Qed.

(** [get_base_url] on a URL with an explicit http or https scheme *)
Lemma get_base_url_http (sch r : string) :
  is_http sch →
  get_base_url (sch +:+ "://" +:+ r)
  = if unbalanced_brackets (http_authority r)
    then Raise (ValueError "Invalid IPv6 URL")
    else Ok (sch +:+ "://" +:+ http_authority r).
Proof.
  intros Hs. unfold get_base_url.
  destruct (unbalanced_brackets (http_authority r)) eqn:Hb.
  - by rewrite urlparse_http_raises.
  - destruct (urlparse_http sch r Hs Hb) as (p & -> & H1 & H2 & _). simpl.
    by rewrite H1, H2.
Qed.

Lemma http_authority_fixed (r : string) :
  http_authority (http_authority r) = http_authority r.
Proof.
  unfold http_authority at 1.
  rewrite (remove_chars_id _ _ (http_authority_safe r)).
  by rewrite (span_none _ _ (http_authority_no_delim r)).
Qed.

(** The key of a URL is its base URL followed by a path, and the base URL is
    the scheme of the key followed by the domain of the URL. *)
Lemma key_base_domain (s k : string) :
  s ≠ "" → normalize_url s = Ok k →
  ∃ b d p, get_base_url k = Ok b ∧ get_domain s = Ok d ∧ k = b +:+ p
    ∧ (b = "http://" +:+ d ∨ b = "https://" +:+ d)
    ∧ starts_with_or_empty (eqc "/") p = true.
Proof.
  intros Hne Hk.
  destruct (normalize_url_shape s Hne) as (sch & r & Hs & Hn & Hshape).
  assert (get_domain s = Ok (key_host r)
          ∧ unbalanced_brackets (http_authority r) = false
          ∧ k = sch +:+ "://" +:+ key_host r +:+ rstrip (eqc "/") (http_path r))
    as (Hd & Hb & ->).
  { rewrite Hn in Hk. unfold http_key in Hk.
    destruct (unbalanced_brackets (http_authority r)) eqn:Hb; [done|].
    injection Hk as <-. split; [|done].
    unfold get_domain. rewrite Hn. unfold http_key. rewrite Hb. simpl.
    fold (key_host r).
    destruct (urlparse_http sch (key_host r +:+ rstrip (eqc "/") (http_path r)) Hs)
      as (p & Hp & _ & Hnl & _).
    { rewrite http_authority_key. unfold key_host. by rewrite unbalanced_host. }
    rewrite Hp. simpl. by rewrite Hnl, http_authority_key. }
  exists (sch +:+ "://" +:+ key_host r), (key_host r),
    (rstrip (eqc "/") (http_path r)).
  split; [|split; [done|split; [|split]]].
  - rewrite (get_base_url_http _ _ Hs), http_authority_key.
    unfold key_host at 1. by rewrite unbalanced_host, Hb.
  - by rewrite !app_assoc_str.
  - by destruct Hs as [-> | ->]; [left|right].
  - eapply head_prefix; [apply rstrip_prefix|apply http_path_head].
Qed.

(** [get_domain] through the key of its argument *)
Lemma get_domain_of_key (s sch r : string) :
  is_http sch → normalize_url s = http_key sch r →
  get_domain s
  = if unbalanced_brackets (http_authority r)
    then Raise (ValueError "Invalid IPv6 URL")
    else Ok (key_host r).
Proof.
  intros Hs Hn. rewrite <- (get_domain_http sch r Hs).
  unfold get_domain. by rewrite Hn, (normalize_url_http _ _ Hs).
Qed.

Lemma key_host_lower (r : string) : lower (key_host r) = key_host r.
Proof.
  unfold key_host, strip_www. destruct (startswith "www." _).
  - by rewrite lower_drop, lower_idem.
  - apply lower_idem.
Qed.

Lemma eqc_lower_slash a : eqc (lower_char a) "/" = eqc a "/".
Proof. destruct a as [[] [] [] [] [] [] [] []]; reflexivity. Qed.

Lemma eqc_lower_query a : eqc (lower_char a) "?" = eqc a "?".
Proof. destruct a as [[] [] [] [] [] [] [] []]; reflexivity. Qed.

Lemma eqc_lower_hash a : eqc (lower_char a) "#" = eqc a "#".
Proof. destruct a as [[] [] [] [] [] [] [] []]; reflexivity. Qed.

Lemma key_host_no_delim (c : ascii) (r : string) :
  is_netloc_delim c = true →
  (∀ a, eqc (lower_char a) c = eqc a c) →
  has_char c "www." = false →
  has_char c (key_host r) = false.
Proof.
  intros Hc Hlow Hwww. unfold key_host.
  rewrite (has_char_strip_www _ _ Hwww), (has_char_lower _ _ Hlow).
  apply all_not_has.
  eapply all_chars_impl; [|apply http_authority_no_delim].
  intros a Ha. unfold not_char. apply negb_true_iff, eqc_false. intros <-.
  by rewrite Hc in Ha.
Qed.

Lemma has_char_key c (sch h p : string) :
  is_http sch → has_char c "https://" = false →
  has_char c h = false → has_char c p = false →
  has_char c (sch +:+ "://" +:+ h +:+ p) = false.
Proof.
  intros Hs Hc Hh Hp. rewrite !has_char_app, Hh, Hp, !orb_false_r.
  destruct Hs as [-> | ->]; simpl in *;
    repeat (apply orb_false_iff in Hc as [? Hc]);
    repeat (apply orb_false_iff; split); done.
Qed.

(** [is_likely_blog_url] on a URL with an explicit http or https scheme *)
Lemma is_likely_blog_url_http (sch r : string) :
  is_http sch →
  unbalanced_brackets (http_authority r) = false →
  is_likely_blog_url (sch +:+ "://" +:+ r)
  = Ok (negb (existsb (fun domain => contains domain (lower (http_authority r)))
                skip_domains)
        && negb (mem (lower (http_authority r)) skip_exact)
        && negb (existsb (fun ext => endswith ext (lower (http_path r)))
                   skip_extensions)).
Proof.
  intros Hs Hb. unfold is_likely_blog_url.
  rewrite bool_decide_eq_false_2 by (by destruct Hs as [-> | ->]).
  destruct (urlparse_http sch r Hs Hb) as (p & -> & _ & Hn & Hp).
  cbn [mbind result_bind]. rewrite Hn, Hp.
  destruct (existsb (fun domain => contains domain (lower (http_authority r)))
              skip_domains); [done|].
  destruct (mem (lower (http_authority r)) skip_exact); [done|].
  by destruct (existsb (fun ext => endswith ext (lower (http_path r)))
                 skip_extensions).
Qed.

End SiteFacts.

(** *** More facts about the queue and the node store *)

Section BatchFacts.

Lemma lstrip_idem p (s : string) : lstrip p (lstrip p s) = lstrip p s.
Proof.
  induction s as [|a s IH]; [done|]. simpl.
  destruct (p a) eqn:Hp; [done|]. simpl. by rewrite Hp.
Qed.

Lemma rstrip_lstrip p (s : string) :
  rstrip p s = s → rstrip p (lstrip p s) = lstrip p s.
Proof.
  induction s as [|a s IH]; [done|]. simpl.
  destruct (p a) eqn:Hp.
  - destruct (rstrip p s) as [|b r] eqn:Hr; [done|].
    intros [= E]. apply IH. by rewrite E.
  - intros H. simpl. by rewrite Hp.
Qed.

Lemma strip_idem (s : string) : strip (strip s) = strip s.
Proof.
  unfold strip. rewrite (rstrip_lstrip is_space (rstrip is_space s)).
  - apply lstrip_idem.
  - apply rstrip_idem.
Qed.

Lemma load_queue_entry (fs : files) (q : string) :
  q ∈ load_queue fs → q ≠ "" ∧ strip q = q.
Proof.
  unfold load_queue. intros [Hne Hq]%list_elem_of_filter.
  split; [done|]. apply list_elem_of_fmap in Hq as (l & -> & _).
  apply strip_idem.
Qed.

Lemma load_queue_saved (urls : list string) (fs : files) :
  (∀ u, u ∈ urls → u ≠ "" ∧ strip u = u) →
  load_queue (save_queue urls fs) = urls.
Proof.
  unfold load_queue, save_queue. simpl. intros Hall.
  induction urls as [|u urls IH]; [done|]. rewrite fmap_cons.
  destruct (Hall u) as [Hne Hs]; [left|]. rewrite Hs.
  rewrite filter_cons_True by done. f_equal. apply IH.
  intros v Hv. apply Hall. by right.
Qed.

Lemma slice_app {A} (n : Z) (l : list A) : slice_to n l ++ slice_from n l = l.
Proof. unfold slice_to, slice_from. destruct (n <? 0)%Z; apply firstn_skipn. Qed.

Lemma filter_none (P : string → Prop) `{!∀ x, Decision (P x)} (l : list string) :
  (∀ x, x ∈ l → ¬ P x) → filter P l = [].
Proof.
  induction l as [|x l IH]; [done|]. intros Hall.
  rewrite filter_cons_False by (apply Hall; left).
  apply IH. intros y Hy. apply Hall. by right.
Qed.

Lemma dedupe_queue_loop_same (scraped : gset string) (lines : list string) :
  ∀ seen queue,
    dedupe_queue_loop scraped lines seen queue
    = deduplicate_queue_loop scraped lines seen queue.
Proof.
  induction lines as [|line lines IH]; intros seen queue; [done|]. simpl.
  case_bool_decide as Hblank.
  - rewrite Hblank. simpl. apply IH.
  - destruct (normalize_url (strip line)) as [k|e]; [|done]. simpl.
    case_bool_decide as Hk; simpl; [apply IH|].
    destruct (decide (k ∈ seen)) as [Hs|Hs].
    + rewrite (bool_decide_eq_true_2 (k ∈ seen)) by done.
      rewrite (bool_decide_eq_false_2 (k ∉ seen)) by auto.
      rewrite andb_false_r. simpl. apply IH.
    + rewrite (bool_decide_eq_false_2 (k ∈ seen)) by done.
      rewrite (bool_decide_eq_true_2 (k ∉ seen)) by done.
      rewrite andb_true_r. simpl.
      destruct (decide (k ∈ scraped)) as [Hc|Hc].
      * rewrite (bool_decide_eq_true_2 (k ∈ scraped)) by done.
        rewrite (bool_decide_eq_false_2 (k ∉ scraped)) by auto. apply IH.
      * rewrite (bool_decide_eq_false_2 (k ∈ scraped)) by done.
        rewrite (bool_decide_eq_true_2 (k ∉ scraped)) by done. apply IH.
Qed.

(** the loop of the queue pass is the loop of [add_to_queue] run on the queue
    as [load_queue] reads it *)
Lemma deduplicate_queue_loop_add (scraped : gset string) (lines : list string) :
  ∀ seen queue,
    deduplicate_queue_loop scraped lines seen queue
    = add_loop scraped (filter (fun l => l ≠ "") (strip <$> lines)) seen queue.
Proof.
  induction lines as [|line lines IH]; intros seen queue; [done|].
  rewrite fmap_cons. simpl. case_bool_decide as Hblank.
  - rewrite filter_cons_False by auto. apply IH.
  - rewrite filter_cons_True by done. simpl.
    destruct (normalize_url (strip line)) as [k|e]; [|done]. simpl.
    destruct (_ && _ && _); apply IH.
Qed.

Lemma add_loop_keys (seen : gset string) (urls : list string) :
  ∀ cq new out, add_loop seen urls cq new = Ok out →
    ∃ keys, normalize_all urls = Ok keys.
Proof.
  induction urls as [|u urls IH]; intros cq new out; [by exists []|]. simpl.
  destruct (normalize_url u) as [k|e]; [|done]. simpl.
  intros H. destruct (_ && _ && _); apply IH in H as [keys ->]; by eexists.
Qed.

Lemma normalize_all_elem (urls keys : list string) :
  normalize_all urls = Ok keys →
  ∀ k, k ∈ keys ↔ ∃ u, u ∈ urls ∧ normalize_url u = Ok k.
Proof.
  revert keys. induction urls as [|u urls IH]; intros keys.
  - intros [= <-] k. split; [by intros ?%elem_of_nil|].
    by intros (u & ?%elem_of_nil & _).
  - simpl. destruct (normalize_url u) as [k0|e] eqn:Hu; [|done]. simpl.
    destruct (normalize_all urls) as [ks|e]; [|done]. simpl.
    intros [= <-] k. rewrite elem_of_cons, (IH ks eq_refl k). split.
    + intros [->|(v & Hv & Hk)]; [exists u; split; [left|done]|].
      exists v. split; [by right|done].
    + intros (v & [->|Hv]%elem_of_cons & Hk); [left; congruence|].
      right. by exists v.
Qed.

Lemma load_seen_urls_from_app (l1 l2 : list store_line) :
  ∀ seen, load_seen_urls_from (l1 ++ l2) seen
          = load_seen_urls_from l1 seen ≫= load_seen_urls_from l2.
Proof.
  induction l1 as [|line l1 IH]; intros seen; [done|].
  destruct line as [|v|blog]; simpl; [apply IH|done|].
  destruct (normalize_url_value _) as [k|e]; [|done]. simpl. apply IH.
Qed.

Lemma scraped_urls_from_seen (lines : list store_line) :
  ∀ acc seen, load_seen_urls_from lines acc = Ok seen →
    scraped_urls_from lines (acc ∖ {[""]}) = seen ∖ {[""]}.
Proof.
  induction lines as [|line lines IH]; intros acc seen.
  - by intros [= <-].
  - destruct line as [|v|blog]; simpl; [apply IH|done|].
    destruct (normalize_url_value _) as [k|e]; [|done]. simpl.
    intros H. case_bool_decide as Hk.
    + rewrite <- (IH _ _ H). f_equal. subst k.
      apply set_eq. intros x.
      rewrite !elem_of_difference, !elem_of_union, !elem_of_singleton.
      split; [intros [? ?]; auto | intros [[->|?] ?]; auto]; done.
    + rewrite <- (IH _ _ H). f_equal.
      apply set_eq. intros x.
      rewrite !elem_of_difference, !elem_of_union, !elem_of_difference,
        !elem_of_singleton.
      split; [intros [->|[? ?]]; auto | intros [[->|?] ?]; auto].
Qed.

Lemma filter_not_in_app (d : list string) (k : string) (l : list string) :
  filter (fun y => y ∉ d ++ [k]) l
  = filter (fun y => y ∉ d) (filter (fun y => y ≠ k) l).
Proof.
  rewrite list_filter_filter. apply list_filter_iff. intros y.
  rewrite not_elem_of_app, not_elem_of_cons. split.
  - intros (? & ? & _). done.
  - intros (? & ?). split; [done|]. split; [done|]. apply not_elem_of_nil.
Qed.

(** the keys of the dict the node store pass builds, in insertion order *)
Lemma dedup_loop_keys replaces (lines : list store_line) :
  ∀ (d out : blog_dict),
    dedup_loop replaces lines d = Ok out →
    out.*1 = d.*1 ++ filter (fun k => k ∉ d.*1)
                        (first_occurrences (line_keys lines)).
Proof.
  induction lines as [|line lines IH]; intros d out Hrun.
  - injection Hrun as <-. simpl. by rewrite app_nil_r.
  - destruct line as [|v|blog]; simpl in Hrun; [by apply IH|done|].
    simpl. fold (blog_key blog) in Hrun.
    destruct (blog_key blog) as [url|err]; [|done]. simpl in Hrun.
    case_bool_decide as Hurl; [by apply IH|].
    simpl.
    assert (url ∈ d.*1 →
            filter (fun k => k ∉ d.*1)
              (url :: filter (fun y => y ≠ url) (first_occurrences (line_keys lines)))
            = filter (fun k => k ∉ d.*1) (first_occurrences (line_keys lines)))
      as Hpresent.
    { intros Hin. rewrite filter_cons_False by auto.
      rewrite list_filter_filter. apply list_filter_iff. intros y.
      split; [by intros [? _]|]. intros Hy. split; [done|]. by intros ->. }
    destruct (dict_get url d) as [existing|] eqn:Hget.
    + assert (url ∈ d.*1) as Hin.
      { destruct (decide (url ∈ d.*1)) as [|Hout]; [done|].
        apply dict_get_None in Hout. congruence. }
      rewrite (Hpresent Hin).
      destruct (replaces existing blog).
      * rewrite (IH _ _ Hrun). by rewrite dict_set_keys_present.
      * by apply IH.
    + apply dict_get_None in Hget.
      rewrite (IH _ _ Hrun), dict_set_keys_fresh, fmap_app by done. simpl.
      rewrite filter_cons_True by done. rewrite <- app_assoc. simpl.
      by rewrite filter_not_in_app.
Qed.

Lemma set_url_keys (d : blog_dict) : (set_url <$> d).*1 = d.*1.
Proof.
  induction d as [|[k v] d IH]; [done|]. rewrite !fmap_cons. cbn [fst set_url].
  by f_equal.
Qed.

Lemma filter_not_in_nil (l : list string) :
  filter (fun k => k ∉ ([] : list string)) l = l.
Proof. apply filter_all. intros x _. apply not_elem_of_nil. Qed.

Lemma line_keys_elem (lines : list store_line) (k : string) :
  k ∈ line_keys lines ↔ k ≠ "" ∧ ∃ b, Blog b ∈ lines ∧ blog_key b = Ok k.
Proof.
  induction lines as [|line lines IH]; simpl.
  - split; [by intros ?%elem_of_nil|]. by intros (_ & b & ?%elem_of_nil & _).
  - destruct line as [|v|blog].
    + rewrite IH. split.
      * intros (? & b & ? & ?). split; [done|]. exists b. split; [by right|done].
      * intros (? & b & [?|?]%elem_of_cons & ?); [done|]. split; [done|].
        by exists b.
    + rewrite IH. split.
      * intros (? & b & ? & ?). split; [done|]. exists b. split; [by right|done].
      * intros (? & b & [?|?]%elem_of_cons & ?); [done|]. split; [done|].
        by exists b.
    + destruct (blog_key blog) as [k0|e] eqn:Hk0.
      * case_bool_decide as Hemp.
        -- rewrite IH. split.
           ++ intros (? & b & ? & ?). split; [done|]. exists b.
              split; [by right|done].
           ++ intros (Hne & b & [[= <-]|?]%elem_of_cons & Hb);
                [congruence|]. split; [done|]. by exists b.
        -- rewrite elem_of_cons, IH. split.
           ++ intros [->|(? & b & ? & ?)].
              ** split; [done|]. exists blog. split; [left|done].
              ** split; [done|]. exists b. split; [by right|done].
           ++ intros (Hne & b & [[= <-]|?]%elem_of_cons & Hb).
              ** left. congruence.
              ** right. split; [done|]. by exists b.
      * rewrite IH. split.
        -- intros (? & b & ? & ?). split; [done|]. exists b.
           split; [by right|done].
        -- intros (Hne & b & [[= <-]|?]%elem_of_cons & Hb);
             [congruence|]. split; [done|]. by exists b.
Qed.

End BatchFacts.

(** *** Facts about the edge store *)

Section EdgeFacts.

Lemma filter_empty_edges :
  (∅ : gset edge) = filter has_endpoints (∅ : gset edge).
Proof.
  apply set_eq. intros x. rewrite elem_of_filter. split; [done|by intros [_ ?]].
Qed.

(** the edges dedupe_data.py ends with: those it began with and the readings
    of the rows *)
Lemma dedupe_edges_loop_spec (rows : list (list string)) :
  ∀ acc E, dedupe_edges_loop rows acc = Ok E →
    ∀ e, e ∈ E ↔ e ∈ acc ∨ ∃ row, row ∈ rows ∧ row ≠ [] ∧ read_edge row = Ok e.
Proof.
  induction rows as [|row rows IH]; intros acc E.
  - intros [= <-] e. split; [by left|]. intros [?|(r & ?%elem_of_nil & _)]; done.
  - simpl.
    assert (∀ e, (e ∈ acc ∨ ∃ r, r ∈ rows ∧ r ≠ [] ∧ read_edge r = Ok e)
                 → e ∈ acc ∨ ∃ r, r ∈ row :: rows ∧ r ≠ [] ∧ read_edge r = Ok e)
      as Hweak.
    { intros e [?|(r & ? & ?)]; [by left|right]. exists r. split; [by right|done]. }
    case_bool_decide as Hrow.
    { intros H e. rewrite (IH _ _ H e). split; [apply Hweak|].
      intros [?|(r & [->|?]%elem_of_cons & Hr & ?)]; [by left|done|].
      right. by exists r. }
    destruct (normalize_url_field (row !! 0%nat)) as [s|err] eqn:Hs; [|done].
    simpl.
    destruct (normalize_url_field (row !! 1%nat)) as [t|err] eqn:Ht; [|done].
    simpl.
    assert (read_edge row = Ok (s, t, row !! 2%nat)) as Hread.
    { unfold read_edge. by rewrite Hs, Ht. }
    case_bool_decide as Hin; intros H e; rewrite (IH _ _ H e).
    + split; [apply Hweak|].
      intros [?|(r & [->|?]%elem_of_cons & Hr & Hre)]; [by left| |].
      * left. rewrite Hread in Hre. congruence.
      * right. by exists r.
    + rewrite elem_of_union, elem_of_singleton. split.
      * intros [[->|?]|(r & ? & ?)].
        -- right. exists row. split; [left|done].
        -- by left.
        -- right. exists r. split; [by right|done].
      * intros [?|(r & [->|?]%elem_of_cons & Hr & Hre)].
        -- left. by right.
        -- left. left. rewrite Hread in Hre. congruence.
        -- right. by exists r.
Qed.

(** deduplicate.py ends with the edges of dedupe_data.py that have both
    endpoints, and raises when dedupe_data.py does *)
Lemma deduplicate_edges_loop_filter (rows : list (list string)) :
  ∀ acc acc', acc' = filter has_endpoints acc →
    match dedupe_edges_loop rows acc with
    | Ok E => deduplicate_edges_loop rows acc' = Ok (filter has_endpoints E)
    | Raise e => deduplicate_edges_loop rows acc' = Raise e
    end.
Proof.
  induction rows as [|row rows IH]; intros acc acc' Hacc.
  - simpl. by rewrite Hacc.
  - simpl. case_bool_decide as Hrow; [by apply IH|].
    destruct (normalize_url_field (row !! 0%nat)) as [s|err]; [|done]. simpl.
    destruct (normalize_url_field (row !! 1%nat)) as [t|err]; [|done]. simpl.
    case_bool_decide as Hin.
    + destruct (_ && _) eqn:Hends; [|by apply IH].
      apply IH. subst acc'. apply set_eq. intros e.
      rewrite elem_of_union, elem_of_singleton, !elem_of_filter.
      split; [intros [->|?]; [|done] | by right].
      split; [|done].
      apply andb_true_iff in Hends as [H1 H2].
      apply negb_true_iff, bool_decide_eq_false in H1, H2. by split.
    + destruct (_ && _) eqn:Hends.
      * apply IH. subst acc'. apply set_eq. intros e.
        apply andb_true_iff in Hends as [H1 H2].
        apply negb_true_iff, bool_decide_eq_false in H1, H2.
        rewrite elem_of_filter, !elem_of_union, elem_of_singleton, elem_of_filter.
        split.
        -- intros [->|[? ?]]; [by split; [split|left]|]. split; [done|by right].
        -- intros [He [->|?]]; [by left|by right].
      * apply IH. subst acc'. apply set_eq. intros e.
        rewrite !elem_of_filter, elem_of_union, elem_of_singleton.
        split; [intros [? ?]; split; [done|by right]|].
        intros [He [->|?]]; [|done]. exfalso.
        destruct He as [H1 H2]. simpl in *.
        apply andb_false_iff in Hends as [H|H];
          apply negb_false_iff, bool_decide_eq_true in H; done.
Qed.

Lemma deduplicate_edges_set (rows : list (list string)) (U : gset edge) :
  deduplicate_edges_loop rows ∅ = Ok U →
  ∃ E, dedupe_edges_loop rows ∅ = Ok E ∧ U = filter has_endpoints E.
Proof.
  intros HU.
  pose proof (deduplicate_edges_loop_filter rows ∅ ∅ filter_empty_edges) as H.
  destruct (dedupe_edges_loop rows ∅) as [E|e].
  - exists E. split; [done|]. congruence.
  - congruence.
Qed.

(** the pass over a file of one row with stable, non-empty endpoints *)
Lemma deduplicate_edges_one (ks kt ty : string) :
  normalize_url ks = Ok ks → normalize_url kt = Ok kt →
  ks ≠ "" → kt ≠ "" →
  deduplicate_edges (Some [[ks; kt; ty]])
  = Ok (Some {[(ks, kt, Some ty)]}, Some [[ks; kt; ty]]).
Proof.
  intros Hks Hkt Hs Ht. unfold deduplicate_edges.
  cbn [deduplicate_edges_loop].
  rewrite bool_decide_eq_false_2 by done.
  cbn [lookup list_lookup normalize_url_field]. rewrite Hks, Hkt.
  cbn [mbind result_bind].
  rewrite !bool_decide_eq_false_2 by done. cbn [negb andb].
  rewrite (right_id_L ∅ (∪)). cbn [mbind result_bind].
  by rewrite elements_singleton.
Qed.

End EdgeFacts.

(** *** Facts about the fetch result and the circle members *)

Section CircleFacts.
Import Fetch.

Lemma try_get_world (url : string) (w : world) :
  (try_get url w).2 = after_call url w.
Proof.
  unfold try_get, mbind, io_bind, mret, io_ret, after_call.
  by destruct (requests_get url w).
Qed.

Lemma try_get_after (url : string) (w : world) :
  ∃ r, try_get url w = (r, after_call url w).
Proof. rewrite <- try_get_world. by destruct (try_get url w); eexists. Qed.

Lemma after_call_world (url : string) (w : world) :
  after_call url w
  = mkWorld (List.tl (network w)) (requested w ++ [url]) (slept w).
Proof. unfold after_call, requests_get. by destruct (network w). Qed.

Lemma scraper_fetch_one_sided (url : string) (w : world) :
  one_sided (Scraper.fetch_url url w).1.
Proof.
  unfold Scraper.fetch_url. simpl. unfold mbind, io_bind.
  destruct (try_get_after url w) as [r ->]. destruct r as [[t h]|e]; simpl.
  - left. by eexists _, _.
  - destruct (try_get_after url
                (mkWorld (network (after_call url w))
                   (requested (after_call url w))
                   (slept (after_call url w) + 1))) as [r ->].
    destruct r as [[t h]|e2]; simpl; [left; by eexists _, _|right; by eexists].
Qed.

(** the links [extract_links_from_html] ends with: those it began with and
    the resolutions of the hrefs it does not skip *)
Lemma extract_links_loop_elem (base_url : string) (hrefs : list string) :
  ∀ links out, extract_links_loop base_url hrefs links = Ok out →
    ∀ l, l ∈ out
         ↔ l ∈ links ∨ ∃ href, href ∈ hrefs ∧ skipped_link href = false
                               ∧ urljoin base_url href = Ok l.
Proof.
  induction hrefs as [|href rest IH]; intros links out Hrun l.
  - injection Hrun as <-. split; [by left|].
    intros [?|(? & ?%elem_of_nil & _)]; done.
  - simpl in Hrun. destruct (skipped_link href) eqn:Hskip.
    + rewrite (IH _ _ Hrun l). split.
      * intros [?|(h & Hh & Hl)]; [by left|].
        right. exists h. split; [by right|done].
      * intros [?|(h & [->|Hh]%elem_of_cons & Hs & Hl)]; [by left|congruence|].
        right. by exists h.
    + destruct (urljoin base_url href) as [a|e] eqn:Hj; [|done].
      rewrite (IH _ _ Hrun l), elem_of_app, list_elem_of_singleton. split.
      * intros [[?| ->]|(h & Hh & Hl)]; [by left| |].
        -- right. exists href. split; [left|done].
        -- right. exists h. split; [by right|done].
      * intros [?|(h & [->|Hh]%elem_of_cons & Hs & Hl)]; [by left; left| |].
        -- left. right. congruence.
        -- right. by exists h.
Qed.

Lemma extract_links_loop_length (base_url : string) (hrefs : list string) :
  ∀ links out, extract_links_loop base_url hrefs links = Ok out →
    length out
    = length links + length (filter (fun h => skipped_link h = false) hrefs).
Proof.
  induction hrefs as [|href rest IH]; intros links out Hrun.
  - injection Hrun as <-. simpl. lia.
  - simpl in Hrun. destruct (skipped_link href) eqn:Hskip.
    + rewrite filter_cons_False by congruence. by apply IH.
    + destruct (urljoin base_url href) as [a|e]; [|done].
      rewrite filter_cons_True by done. rewrite (IH _ _ Hrun), length_app.
      simpl. lia.
Qed.

(** the members the loop of [scrape_circle] ends with *)
Lemma circle_members_spec (url : string) (links : list string) :
  ∀ acc out, circle_members url links acc = Ok out →
    NoDup acc →
    NoDup out
    ∧ ∀ m, m ∈ out → m ∈ acc ∨ ∃ link, link ∈ links ∧ member_of url link m.
Proof.
  induction links as [|link links IH]; intros acc out Hrun Hnd.
  - injection Hrun as <-. split; [done|]. by left.
  - assert (∀ acc', circle_members url links acc' = Ok out → NoDup acc' →
              (∀ m, m ∈ acc' → m ∈ acc ∨ member_of url link m) →
              NoDup out
              ∧ ∀ m, m ∈ out →
                  m ∈ acc ∨ ∃ l, l ∈ link :: links ∧ member_of url l m) as Hstep.
    { intros acc' Hrun' Hnd' Hacc'. destruct (IH _ _ Hrun' Hnd') as [Hn Hin].
      split; [done|]. intros m Hm.
      destruct (Hin m Hm) as [Hold|(l & Hl & Hmem)].
      - destruct (Hacc' m Hold) as [?|?]; [by left|].
        right. exists link. split; [left|done].
      - right. exists l. split; [by right|done]. }
    simpl in Hrun.
    destruct (is_likely_blog_url link) as [[|]|e] eqn:Hlikely; [| |done].
    2: { apply (Hstep acc Hrun Hnd). by left. }
    destruct (get_domain url) as [cd|e] eqn:Hcd; [|done]. simpl in Hrun.
    destruct (get_domain link) as [ld|e] eqn:Hld; [|done]. simpl in Hrun.
    case_bool_decide as Hdiff.
    2: { apply (Hstep acc Hrun Hnd). by left. }
    destruct (normalize_url link) as [k|e] eqn:Hk; [|done]. simpl in Hrun.
    destruct (get_base_url k) as [b|e] eqn:Hb; [|done]. simpl in Hrun.
    case_bool_decide as Hnew.
    2: { apply (Hstep acc Hrun Hnd). by left. }
    apply (Hstep _ Hrun).
    + apply NoDup_app. split; [done|]. split; [|apply NoDup_singleton].
      by intros x Hx ->%list_elem_of_singleton.
    + intros m [?| ->%list_elem_of_singleton]%elem_of_app; [by left|right].
      split; [done|]. exists ld. split; [done|]. split; [congruence|].
      assert (link ≠ "") as Hne by (by intros ->).
      destruct (key_base_domain link k Hne Hk)
        as (b' & d & p & Hb' & Hd & _ & Hor & _).
      congruence.
Qed.

End CircleFacts.

(** *** Facts about the friend-links page and the signature tables *)

Section PageFacts.
Import Re.

Lemma first_usable_app (l1 l2 : list string) :
  first_usable (l1 ++ l2)
  = match first_usable l1 with Some m => Some m | None => first_usable l2 end.
Proof.
  induction l1 as [|m l1 IH]; [done|]. simpl. by destruct (usable_page m).
Qed.

Lemma first_usable_Some (l : list string) (m : string) :
  first_usable l = Some m →
  ∃ pre post, l = pre ++ m :: post ∧ usable_page m = true
              ∧ ∀ x, x ∈ pre → usable_page x = false.
Proof.
  induction l as [|x l IH]; [done|]. simpl.
  destruct (usable_page x) eqn:Hx.
  - intros [= <-]. exists [], l. split; [done|]. split; [done|].
    by intros y ?%elem_of_nil.
  - intros (pre & post & -> & Hm & Hpre)%IH. exists (x :: pre), post.
    split; [done|]. split; [done|].
    intros y [->|Hy]%elem_of_cons; [done|by apply Hpre].
Qed.

Lemma first_usable_None (l : list string) :
  first_usable l = None ↔ ∀ x, x ∈ l → usable_page x = false.
Proof.
  induction l as [|x l IH]; simpl.
  - split; [|done]. by intros _ y ?%elem_of_nil.
  - destruct (usable_page x) eqn:Hx.
    + split; [done|]. intros H. specialize (H x). rewrite Hx in H.
      assert (true = false) by (apply H; left). done.
    + rewrite IH. split.
      * intros H y [->|Hy]%elem_of_cons; [done|by apply H].
      * intros H y Hy. apply H. by right.
Qed.

(** the loop over the patterns looks at their matches as one list *)
Lemma find_page_loop_spec (patterns : list regex) (html base_url : string) :
  find_page_loop patterns html base_url
  = match first_usable
            (mjoin ((fun p => findall IGNORECASE p html) <$> patterns)) with
    | Some m =>
        match urljoin base_url m with
        | Ok page => Ok (Some page)
        | Raise e => Raise e
        end
    | None => Ok None
    end.
Proof.
  induction patterns as [|p rest IH]; [done|].
  rewrite fmap_cons. cbn [mjoin list_join find_page_loop].
  rewrite first_usable_app.
  by destruct (first_usable (findall IGNORECASE p html)).
Qed.

Lemma detect_ssg_loop_range (table : list ssg_entry) (generator html : string) :
  detect_ssg_loop table generator html ∈ "unknown" :: (ssg_name <$> table).
Proof.
  induction table as [|e table IH]; simpl; [left|].
  destruct (any_search (meta_generator e) generator); [right; left|].
  destruct (any_search (html_signatures e) html); [right; left|].
  apply elem_of_cons in IH as [->|IH]; [left|]. right. by right.
Qed.

Lemma detect_ssg_loop_match (table : list ssg_entry) (generator html : string) :
  (∃ e, e ∈ table ∧ ssg_matches generator html e = true) →
  detect_ssg_loop table generator html ∈ ssg_name <$> table.
Proof.
  induction table as [|x table IH]; [by intros (e & ?%elem_of_nil & _)|].
  intros (e & He & Hm). simpl.
  destruct (any_search (meta_generator x) generator) eqn:H1; [left|].
  destruct (any_search (html_signatures x) html) eqn:H2; [left|].
  right. apply IH. apply elem_of_cons in He as [->|He]; [|by exists e].
  unfold ssg_matches in Hm. by rewrite H1, H2 in Hm.
Qed.

Lemma detect_comment_loop_entry (table : list comment_entry) (html : string) r :
  detect_comment_loop table html = Some r →
  ∃ e, e ∈ table ∧ any_search (signatures e) html = true
       ∧ r = mkSystem (system_name e) (Some (entry_storage e))
               (Some (entry_identity e)).
Proof.
  induction table as [|x table IH]; simpl; [done|].
  destruct (any_search (signatures x) html) eqn:Hx.
  - intros [= <-]. exists x. split; [left|done].
  - intros (e & He & Hr)%IH. exists e. split; [by right|done].
Qed.

End PageFacts.

(** *** Facts about the external links of a page *)

Section ExternalFacts.

Lemma get_base_url_nonempty (url b : string) :
  get_base_url url = Ok b → b ≠ "".
Proof.
  unfold get_base_url. destruct (urlparse url "") as [p|e]; [|done]. simpl.
  intros [= <-]. by destruct (scheme p).
Qed.

Lemma external_links_loop_spec (base_url base_domain : string)
    (hrefs : list string) :
  get_domain base_url = Ok base_domain →
  ∀ acc out, external_links_loop base_url base_domain hrefs acc = Ok out →
    NoDup acc → (∀ l, l ∈ acc → l ≠ "") →
    NoDup out
    ∧ (∀ l, l ∈ out → l ≠ "")
    ∧ ∀ l, l ∈ out ↔
        l ∈ acc ∨ ∃ href, href ∈ hrefs ∧ external_link base_url href l.
Proof.
  intros Hbase. induction hrefs as [|href hrefs IH]; intros acc out Hrun Hnd Hne.
  - injection Hrun as <-. split; [done|]. split; [done|]. intros l.
    split; [by left|]. intros [?|(h & ?%elem_of_nil & _)]; done.
  - assert (∀ l, external_link base_url href l → l ∈ acc →
              external_links_loop base_url base_domain hrefs acc = Ok out →
              NoDup out ∧ (∀ l, l ∈ out → l ≠ "")
              ∧ ∀ l, l ∈ out ↔
                  l ∈ acc ∨ ∃ h, h ∈ href :: hrefs ∧ external_link base_url h l)
      as Hseen.
    { intros l0 Hl0 Hin Hrun'.
      destruct (IH _ _ Hrun' Hnd Hne) as (H1 & H2 & H3).
      split; [done|]. split; [done|]. intros l. rewrite H3. split.
      - intros [?|(h & ? & ?)]; [by left|]. right. exists h. split; [by right|done].
      - intros [?|(h & [->|?]%elem_of_cons & Hh)]; [by left| |].
        + left. destruct Hl0 as (_ & a0 & d0 & Hj0 & _ & _ & _ & _ & Hb0).
          destruct Hh as (_ & a1 & d1 & Hj1 & _ & _ & _ & _ & Hb1).
          congruence.
        + right. by exists h. }
    assert ((∀ l, ¬ external_link base_url href l) →
              external_links_loop base_url base_domain hrefs acc = Ok out →
              NoDup out ∧ (∀ l, l ∈ out → l ≠ "")
              ∧ ∀ l, l ∈ out ↔
                  l ∈ acc ∨ ∃ h, h ∈ href :: hrefs ∧ external_link base_url h l)
      as Hskip.
    { intros Hno Hrun'.
      destruct (IH _ _ Hrun' Hnd Hne) as (H1 & H2 & H3).
      split; [done|]. split; [done|]. intros l. rewrite H3. split.
      - intros [?|(h & ? & ?)]; [by left|]. right. exists h. split; [by right|done].
      - intros [?|(h & [->|?]%elem_of_cons & Hh)]; [by left| |].
        + by destruct (Hno l).
        + right. by exists h. }
    simpl in Hrun. destruct (skipped_link href) eqn:Hs.
    { apply Hskip; [|done]. intros l (? & _). congruence. }
    destruct (urljoin base_url href) as [a|e] eqn:Hj.
    2: { apply Hskip; [|done]. intros l (_ & a & d & ? & _). congruence. }
    destruct (get_domain a) as [d|e] eqn:Hd; [|done]. simpl in Hrun.
    destruct (negb (bool_decide (d = "")) && bool_decide (d ≠ base_domain))
      eqn:Hext.
    2: { apply Hskip; [|done]. intros l (_ & a' & d' & Hj' & Hd' & Hne' & Hdiff & _).
         assert (a' = a) as -> by congruence.
         assert (d' = d) as -> by congruence.
         apply andb_false_iff in Hext as [H|H].
         - apply negb_false_iff, bool_decide_eq_true in H. done.
         - apply bool_decide_eq_false in H. apply H. intros ->. by apply Hdiff. }
    apply andb_true_iff in Hext as [Hdne Hddiff].
    apply negb_true_iff, bool_decide_eq_false in Hdne.
    apply bool_decide_eq_true in Hddiff.
    destruct (is_likely_blog_url a) as [[|]|e] eqn:Hlikely; [| |done].
    2: { apply Hskip; [|done]. intros l (_ & a' & d' & Hj' & _ & _ & _ & Hl' & _).
         congruence. }
    destruct (get_base_url a) as [b|e] eqn:Hb; [|done]. simpl in Hrun.
    assert (b ≠ "") as Hbne by (by apply (get_base_url_nonempty a)).
    assert (external_link base_url href b) as Hlink.
    { split; [done|]. exists a, d. do 3 (split; [done|]).
      split; [|done]. rewrite Hbase. congruence. }
    rewrite (bool_decide_eq_false_2 (b = "")) in Hrun by done. simpl in Hrun.
    case_bool_decide as Hnew.
    2: { by apply (Hseen b). }
    destruct (IH _ _ Hrun) as (H1 & H2 & H3).
    { apply NoDup_app. split; [done|]. split; [|apply NoDup_singleton].
      by intros x Hx ->%list_elem_of_singleton. }
    { intros l [?| ->%list_elem_of_singleton]%elem_of_app; [by apply Hne|done]. }
    split; [done|]. split; [done|]. intros l.
    rewrite H3, elem_of_app, list_elem_of_singleton. split.
    + intros [[?| ->]|(h & ? & ?)]; [by left| |].
      * right. exists href. split; [left|done].
      * right. exists h. split; [by right|done].
    + intros [?|(h & [->|?]%elem_of_cons & Hh)]; [by left; left| |].
      * left. right.
        destruct Hh as (_ & a1 & d1 & Hj1 & _ & _ & _ & _ & Hb1). congruence.
      * right. by exists h.
Qed.

End ExternalFacts.

(** ** Properties of the site identity key *)




(** C6 (as stated) fails: a doubled "www." is stripped once per pass. *)
Lemma normalize_url_not_idempotent :
  normalize_url "www.www.a.com" = Ok "https://www.a.com"
  ∧ normalize_url "www.www.a.com" ≫= normalize_url = Ok "https://a.com"
  ∧ normalize_url "www.www.a.com" ≫= normalize_url
    ≠ normalize_url "www.www.a.com".
Proof. by repeat split. Qed.

(** C6 (amended).  A key returned by [normalize_url] is a fixed point of
    [normalize_url] whenever it holds no ';' and its host does not begin with
    "www." once more. *)
Theorem normalize_url_idempotent_on_keys (s k : string) :
  normalize_url s = Ok k →
  has_char ";" k = false →
  www_keyed k = false →
  normalize_url k = Ok k.
Proof.
  intros Hk Hsemi Hwww.
  destruct (decide (s = "")) as [-> | Hne].
  { by injection Hk as <-. }
  destruct (normalize_url_shape s Hne) as (sch & r & Hs & Hn & _).
  rewrite Hn in Hk.
  destruct (http_key_form _ _ _ Hk) as [x Hx].
  rewrite Hx at 1. rewrite (normalize_url_http _ _ Hs).
  rewrite <- (drop_scheme sch x), <- Hx.
  apply (http_key_again sch r k Hk Hsemi).
  rewrite Hx, drop_scheme. rewrite Hx in Hwww.
  by rewrite (www_keyed_http _ _ Hs) in Hwww.
Qed.

Lemma normalize_url_idempotent_on_keys_witness :
  normalize_url "WWW.Example.COM/blog/" = Ok "https://example.com/blog"
  ∧ normalize_url "https://example.com/blog" = Ok "https://example.com/blog".
Proof.
  split; [reflexivity|].
  by apply (normalize_url_idempotent_on_keys "WWW.Example.COM/blog/").
Defined.




(** ** Properties of the frontier queue *)




(** ** Properties of the node store pass *)

(** C5 (as stated) fails: each utility keeps one of the two records whole.
    deduplicate.py takes the named record and loses the known generator,
    dedupe_data.py keeps the first record and loses the name. *)
Lemma dedup_is_wholesale :
  deduplicate_blogs [Blog hexo_record; Blog named_record]
  = Ok [("https://a.example", named_record)]
  ∧ ¬ most_informative hexo_record named_record named_record
  ∧ dedupe_blogs [Blog hexo_record; Blog named_record]
    = Ok [("https://a.example", hexo_record)]
  ∧ ¬ most_informative hexo_record named_record hexo_record.
Proof.
  split; [by vm_compute|]. split; [|split; [by vm_compute|]].
  - intros (_ & H & _). by vm_compute in H; specialize (H eq_refl).
  - intros (_ & _ & H). by vm_compute in H; specialize (H eq_refl).
Qed.

(** C5 (amended).  Each pass keeps, per key, one whole input record: every
    record written by deduplicate.py is an input record of that key with its
    url set to the key, every record written by dedupe_data.py is an input
    record of that key, and no key is written twice.  Of two records [e], [n]
    of one key the later one [n] replaces [e] exactly when the utility's test
    holds, and it does when [e] is failed and [n] complete: the result then
    is [n] itself. *)
Theorem dedup_keeps_whole_records (lines : list store_line)
    (e n : gmap string json) (K : string) :
  blog_key e = Ok K → blog_key n = Ok K → K ≠ "" →
  (∀ out, deduplicate_blogs lines = Ok out →
     NoDup out.*1
     ∧ ∀ k b, (k, b) ∈ out →
         ∃ b0, Blog b0 ∈ lines ∧ blog_key b0 = Ok k
               ∧ b = <["url" := JStr k]> b0)
  ∧ (∀ out, dedupe_blogs lines = Ok out →
       NoDup out.*1
       ∧ ∀ k b, (k, b) ∈ out → Blog b ∈ lines ∧ blog_key b = Ok k)
  ∧ deduplicate_blogs [Blog e; Blog n]
    = Ok [(K, <["url" := JStr K]> (if deduplicate_replaces e n then n else e))]
  ∧ dedupe_blogs [Blog e; Blog n]
    = Ok [(K, if dedupe_replaces e n then n else e)]
  ∧ (str_is (e !! "scrape_status") "failed" = true →
     str_is (n !! "scrape_status") "complete" = true →
     deduplicate_blogs [Blog e; Blog n] = Ok [(K, <["url" := JStr K]> n)]
     ∧ dedupe_blogs [Blog e; Blog n] = Ok [(K, n)]).
Proof.
  intros He Hn HK.
  assert (deduplicate_blogs [Blog e; Blog n]
          = Ok [(K, <["url" := JStr K]> (if deduplicate_replaces e n then n else e))])
    as Hpair1.
  { unfold deduplicate_blogs. by rewrite (dedup_loop_pair _ e n K). }
  assert (dedupe_blogs [Blog e; Blog n]
          = Ok [(K, if dedupe_replaces e n then n else e)]) as Hpair2.
  { unfold dedupe_blogs. by rewrite (dedup_loop_pair _ e n K). }
  split; [|split; [|split; [done|split; [done|]]]].
  - intros out Hrun. unfold deduplicate_blogs in Hrun.
    destruct (dedup_loop deduplicate_replaces lines []) as [d|err] eqn:Hd; [|done].
    injection Hrun as <-.
    destruct (dedup_loop_whole _ _ _ _ Hd) as [Hnd Hin]; [constructor|].
    split.
    + rewrite <- list_fmap_compose.
      by replace (fst ∘ set_url) with (fst : string * gmap string json → string).
    + intros k b ([k0 b0] & [= -> ->] & Hkb)%list_elem_of_fmap. simpl.
      destruct (Hin _ _ Hkb) as [?%elem_of_nil|(Hl & Hk & _)]; [done|].
      by exists b0.
  - intros out Hrun.
    destruct (dedup_loop_whole _ _ _ _ Hrun) as [Hnd Hin]; [constructor|].
    split; [done|]. intros k b Hkb.
    by destruct (Hin _ _ Hkb) as [?%elem_of_nil|(Hl & Hk & _)].
  - intros Hf Hc. rewrite Hpair1, Hpair2.
    unfold deduplicate_replaces, dedupe_replaces. rewrite Hf, Hc. simpl.
    assert (str_is (e !! "scrape_status") "complete" = false) as ->; [|done].
    destruct (e !! "scrape_status") as [[| | |s| |]|]; try done.
    simpl in *. apply bool_decide_eq_true in Hf as ->. done.
Qed.

Lemma dedup_keeps_whole_records_witness :
  deduplicate_blogs [Blog failed_record; Blog complete_record]
  = Ok [("http://b.example", <["url" := JStr "http://b.example"]> complete_record)]
  ∧ dedupe_blogs [Blog failed_record; Blog complete_record]
    = Ok [("http://b.example", complete_record)].
Proof.
  by apply (dedup_keeps_whole_records [] failed_record complete_record
              "http://b.example").
Defined.

(** ** Properties of the fetcher *)

Section FetchFacts.
Import Fetch.

(** C2 (as stated) fails: scraper.py retries after an HTTP error status, and
    fast_scraper.py does not retry a timeout. *)
Lemma fetch_url_retries_http_error :
  http_error (next flaky_server) = true
  ∧ Scraper.fetch_url "http://a.example" flaky_server
    = ((Some "<html>", Some [], None),
       mkWorld [] ["http://a.example"; "http://a.example"] 1)
  ∧ FastScraper.fetch_url "http://a.example" slow_server
    = ((None, None, Some "timed out"),
       mkWorld [Response 200 "<html>" []] ["http://a.example"] 0).
Proof. by repeat split. Qed.

Lemma requests_get_next (url : string) (w : world) :
  requests_get url w = (next w, after_call url w).
Proof. unfold after_call, next, requests_get. by destruct (network w). Qed.

Lemma calls_after_call (url : string) (w : world) :
  calls w (after_call url w) = 1.
Proof.
  unfold calls, after_call, requests_get.
  destruct (network w); simpl; rewrite length_app; simpl; lia.
Qed.

Lemma try_get_outcome (url : string) (w : world) :
  ∃ r, try_get url w = (r, after_call url w)
       ∧ (fails (next w) = false → ∃ t h, r = inl (t, h))
       ∧ (fails (next w) = true → ∃ e, r = inr e).
Proof.
  unfold try_get, mbind, io_bind, mret, io_ret.
  rewrite requests_get_next. eexists. split; [done|].
  destruct (next w) as [status t h|m|m]; simpl.
  - destruct ((400 <=? status) && (status <? 600))%Z; split; intros; eauto; done.
  - split; [done|eauto].
  - split; [done|eauto].
Qed.

(** C2 (amended).  scraper.py makes one request when the first succeeds and
    otherwise, whatever the exception (connection error, timeout or HTTP
    error status), sleeps one second and makes a second and last request,
    whose outcome decides the result.  fast_scraper.py makes exactly one
    request and never sleeps. *)
Theorem fetch_url_retries_every_error (url : string) (w : world) :
  (fails (next w) = false →
     calls w (Scraper.fetch_url url w).2 = 1
     ∧ slept (Scraper.fetch_url url w).2 = slept w
     ∧ failed (Scraper.fetch_url url w).1 = false)
  ∧ (fails (next w) = true →
     calls w (Scraper.fetch_url url w).2 = 2
     ∧ slept (Scraper.fetch_url url w).2 = slept w + 1
     ∧ failed (Scraper.fetch_url url w).1 = fails (next (after_call url w)))
  ∧ calls w (FastScraper.fetch_url url w).2 = 1
  ∧ slept (FastScraper.fetch_url url w).2 = slept w
  ∧ failed (FastScraper.fetch_url url w).1 = fails (next w).
Proof.
  destruct (try_get_outcome url w) as (r & Hr & Hok & Herr).
  assert (slept (after_call url w) = slept w) as Hslept.
  { unfold after_call, requests_get. by destruct (network w). }
  split; [|split].
  - intros Hf. destruct (Hok Hf) as (t & h & ->).
    unfold Scraper.fetch_url. simpl. unfold mbind, io_bind. rewrite Hr. simpl.
    by rewrite calls_after_call.
  - intros Hf. destruct (Herr Hf) as (e & ->).
    unfold Scraper.fetch_url. simpl. unfold mbind, io_bind. rewrite Hr. simpl.
    set (w1 := mkWorld _ _ _).
    assert (next w1 = next (after_call url w)) as Hn by done.
    assert (calls w (after_call url w1) = 2) as Hc.
    { pose proof (calls_after_call url w) as H1.
      pose proof (calls_after_call url w1) as H2.
      unfold calls in *. subst w1. simpl in *.
      assert (length (requested (after_call url w)) ≥ length (requested w)).
      { unfold after_call, requests_get.
        destruct (network w); simpl; rewrite length_app; lia. }
      lia. }
    assert (slept (after_call url w1) = slept w + 1) as Hs.
    { unfold after_call, requests_get. subst w1. simpl.
      destruct (network (after_call url w)); simpl; by rewrite Hslept. }
    destruct (try_get_outcome url w1) as (r1 & Hr1 & Hok1 & Herr1).
    rewrite Hr1. rewrite <- Hn.
    destruct (fails (next w1)).
    + destruct (Herr1 eq_refl) as (e1 & ->). by simpl.
    + destruct (Hok1 eq_refl) as (t & h & ->). by simpl.
  - unfold FastScraper.fetch_url, mbind, io_bind. rewrite Hr. simpl.
    rewrite calls_after_call. split; [done|]. split; [done|].
    destruct (fails (next w)).
    + by destruct (Herr eq_refl) as (e & ->).
    + by destruct (Hok eq_refl) as (t & h & ->).
Qed.

Lemma fetch_url_retries_every_error_witness :
  calls flaky_server (Scraper.fetch_url "http://a.example" flaky_server).2 = 2
  ∧ slept (Scraper.fetch_url "http://a.example" flaky_server).2 = 1
  ∧ failed (Scraper.fetch_url "http://a.example" flaky_server).1 = false.
Proof.
  by apply (proj1 (proj2 (fetch_url_retries_every_error
                            "http://a.example" flaky_server))).
Defined.

End FetchFacts.

(** ** Properties of the classifiers *)

Section DetectTheorems.
Import Re.

(** C3.  On a page whose generator meta tag declares Hugo and whose body
    holds the hexo signature /lib/hexo, the code answers "hexo": the table is
    walked once, each entry tried by its meta patterns and then by its body
    signatures, so the body signature of the earlier entry pre-empts the meta
    match of the later one.  Checking every meta pattern first, as the claim
    and the comment in the source say, answers "hugo". *)
Lemma detect_ssg_body_beats_later_meta :
  generator_of hugo_page_with_hexo_script = "Hugo 0.121.1"
  ∧ detect_ssg hugo_page_with_hexo_script = "hexo"
  ∧ detect_ssg_meta_first hugo_page_with_hexo_script = "hugo"
  ∧ detect_ssg hugo_page_with_hexo_script
    ≠ detect_ssg_meta_first hugo_page_with_hexo_script.
Proof. repeat split; by vm_compute. Qed.

(** What the loop computes: [detect_ssg] walks the table once in its fixed
    order and answers with the first entry one of whose meta patterns matches
    the content of the generator meta tag or one of whose body signatures
    matches the page; when no entry matches it answers "unknown". *)
Theorem detect_ssg_first_entry (html : string)
    (pre : list ssg_entry) (e : ssg_entry) (post : list ssg_entry) :
  SSG_PATTERNS = pre ++ e :: post →
  (∀ e', e' ∈ pre → ssg_matches (generator_of html) html e' = false) →
  (ssg_matches (generator_of html) html e = true →
     detect_ssg html = ssg_name e)
  ∧ (ssg_matches (generator_of html) html e = false →
     (∀ e', e' ∈ post → ssg_matches (generator_of html) html e' = false) →
     detect_ssg html = "unknown").
Proof.
  intros Htable Hpre. unfold detect_ssg. rewrite Htable. split.
  - intros He. by apply detect_ssg_loop_first.
  - intros He Hpost. apply detect_ssg_loop_none.
    intros e' [Hin|[->|Hin]%elem_of_cons]%elem_of_app; auto.
Qed.

Example detect_ssg_first_entry_hugo :
  detect_ssg hugo_page_with_astro_island = "hugo".
Proof.
  refine (proj1 (detect_ssg_first_entry hugo_page_with_astro_island
                   (firstn 1 SSG_PATTERNS)
                   (mkSsg "hugo"
                      [seqs [lit "Hugo"; star Space;
                             star (OneOf [SDigit; SChar "."])]]
                      [lit "data-hugo"; wild "hugo-" ".js";
                       lit "/hugo_stats.json"] [])
                   (skipn 2 SSG_PATTERNS) _ _) _).
  - reflexivity.
  - intros e' ->%list_elem_of_singleton. by vm_compute.
  - by vm_compute.
Defined.

(** C8 (as stated) fails: the type returned for a comment section of no
    known platform is "unknown". *)
Lemma detect_comment_system_says_unknown :
  no_platform_signature page_with_comments = true
  ∧ has_comment_marker page_with_comments = true
  ∧ detect_comment_system page_with_comments = mkSystem "unknown" None None
  ∧ type (detect_comment_system page_with_comments) ≠ "unknown-present".
Proof. repeat split; by vm_compute. Qed.

(** C8 (amended).  When no platform signature matches, the classifier
    returns type "unknown" if the page holds a generic comment marker and type
    "none" if it does not; and it returns "none" only when there is neither a
    platform signature nor a marker, "unknown" only when there is a marker and
    no platform signature. *)
Theorem detect_comment_system_distinguishes (html : string) :
  (no_platform_signature html = true → has_comment_marker html = true →
     detect_comment_system html = mkSystem "unknown" None None)
  ∧ (no_platform_signature html = true → has_comment_marker html = false →
     detect_comment_system html = mkSystem "none" None None)
  ∧ (type (detect_comment_system html) = "none" →
     no_platform_signature html = true ∧ has_comment_marker html = false)
  ∧ (type (detect_comment_system html) = "unknown" →
     no_platform_signature html = true ∧ has_comment_marker html = true).
Proof.
  unfold detect_comment_system, no_platform_signature, has_comment_marker.
  destruct (detect_comment_loop COMMENT_PATTERNS html) as [r|] eqn:Hloop.
  - assert (forallb (fun e => negb (any_search (signatures e) html))
              COMMENT_PATTERNS = false) as ->.
    { apply not_true_is_false. intros H%detect_comment_loop_None. congruence. }
    apply detect_comment_loop_name in Hloop.
    assert ("none" ∉ system_name <$> COMMENT_PATTERNS) as Hnone
      by (apply (bool_decide_eq_false_1 _); by vm_compute).
    assert ("unknown" ∉ system_name <$> COMMENT_PATTERNS) as Hunknown
      by (apply (bool_decide_eq_false_1 _); by vm_compute).
    split; [done|]. split; [done|].
    split; intros Ht; rewrite Ht in Hloop; done.
  - apply detect_comment_loop_None in Hloop as ->.
    destruct (found IGNORECASE comment_marker html); repeat split; done.
Qed.

Lemma detect_comment_system_distinguishes_witness :
  detect_comment_system page_with_comments = mkSystem "unknown" None None
  ∧ detect_comment_system page_without_comments = mkSystem "none" None None.
Proof.
  split.
  - by apply (proj1 (detect_comment_system_distinguishes page_with_comments)).
  - by apply (proj1 (proj2 (detect_comment_system_distinguishes
                              page_without_comments))).
Defined.

End DetectTheorems.

(** ** Properties of the friend-link extractor *)




(** ** Properties of the article count *)


(** ** The code on sample inputs *)

Section Examples.
Import Re.

Example normalize_url_upper_case_scheme :
  normalize_url "HTTPS://WWW.Example.COM/Blog/?page=2#top"
  = Ok "https://https://WWW.Example.COM/Blog".
Proof. reflexivity. Qed.

Example normalize_url_drops_query_and_fragment :
  normalize_url "https://WWW.Example.COM/Blog/?page=2#top"
  = Ok "https://example.com/Blog".
Proof. reflexivity. Qed.

Example urljoin_relative :
  urljoin "https://mine.example/a/b/c" "../x/./y?q=1#f"
  = Ok "https://mine.example/a/x/y?q=1#f".
Proof. reflexivity. Qed.

Example urljoin_other_scheme :
  urljoin "https://mine.example/" "tel:123" = Ok "tel:123".
Proof. reflexivity. Qed.

Example is_likely_blog_url_samples :
  is_likely_blog_url "https://github.com/foo" = Ok false
  ∧ is_likely_blog_url "https://example.com/post/1.html" = Ok true
  ∧ is_likely_blog_url "https://example.com/theme/a.css" = Ok false.
Proof. by repeat split. Qed.

Example findall_empty_matches :
  findall NOFLAGS (star (Lit "a")) "baac" = [""; "aa"; ""; ""].
Proof. reflexivity. Qed.

Example detect_comment_system_giscus :
  detect_comment_system "<script src='https://giscus.app/client.js'></script>"
  = mkSystem "giscus" (Some "GitHub Discussions") (Some "GitHub").
Proof. by vm_compute. Qed.

Example count_articles_links :
  count_articles
    "<a href='/post/a/'>A</a><a href='/post/b/'>B</a><a href='/2024/01/x'>C</a>"
    "https://mine.example"
  = Some 2%Z.
Proof. by vm_compute. Qed.

Example count_articles_explicit :
  count_articles "<a href='/post/a/'>A</a> 12 posts" "https://mine.example"
  = Some 12%Z.
Proof. by vm_compute. Qed.

Example count_articles_nothing :
  count_articles "<p>0 posts</p>" "https://mine.example" = None.
Proof. by vm_compute. Qed.

End Examples.

(** ** Properties of the domain, the base URL and the key *)

Section SiteTheorems.

(** X1.  The key of a non-empty URL is its base URL followed by a path that
    is empty or begins with a slash, and the base URL is "http://" or
    "https://" followed by the domain [get_domain] gives for the URL. *)
Theorem key_is_base_and_path (s k : string) :
  s ≠ "" → normalize_url s = Ok k →
  ∃ b d p, get_base_url k = Ok b ∧ get_domain s = Ok d ∧ k = b +:+ p
    ∧ (b = "http://" +:+ d ∨ b = "https://" +:+ d)
    ∧ starts_with_or_empty (eqc "/") p = true.
Proof. apply key_base_domain. Qed.

Lemma key_is_base_and_path_witness :
  ∃ b d p, get_base_url "http://blog.example/posts" = Ok b
    ∧ get_domain "http://WWW.Blog.Example/posts/?page=2" = Ok d
    ∧ "http://blog.example/posts" = b +:+ p
    ∧ (b = "http://" +:+ d ∨ b = "https://" +:+ d)
    ∧ starts_with_or_empty (eqc "/") p = true.
Proof.
  apply (key_is_base_and_path "http://WWW.Blog.Example/posts/?page=2");
    by vm_compute.
Defined.

(** X2.  The domain of a URL does not depend on its scheme: "http://" and
    "https://" before the same text give the same domain, or the same
    exception. *)
Theorem get_domain_ignores_scheme (r : string) :
  get_domain ("http://" +:+ r) = get_domain ("https://" +:+ r).
Proof.
  change ("http://" +:+ r) with ("http" +:+ "://" +:+ r).
  change ("https://" +:+ r) with ("https" +:+ "://" +:+ r).
  rewrite (get_domain_http "http" r) by (by left).
  by rewrite (get_domain_http "https" r) by (by right).
Qed.

(** X3.  The base URL of an http or https URL is an initial segment of the
    URL (tab, carriage return and line feed apart, which are dropped), and
    it is its own base URL. *)
Theorem get_base_url_fixed (sch r b : string) :
  is_http sch →
  get_base_url (sch +:+ "://" +:+ r) = Ok b →
  get_base_url b = Ok b
  ∧ is_prefix b (sch +:+ "://" +:+ remove_chars is_unsafe r).
Proof.
  intros Hs. rewrite (get_base_url_http _ _ Hs).
  destruct (unbalanced_brackets (http_authority r)) eqn:Hb; [done|].
  intros [= <-]. split.
  - by rewrite (get_base_url_http _ _ Hs), http_authority_fixed, Hb.
  - destruct (span_fst_prefix is_netloc_delim (remove_chars is_unsafe r))
      as [t Ht].
    exists t. rewrite Ht at 1. unfold http_authority.
    by rewrite !app_assoc_str.
Qed.

Lemma get_base_url_fixed_witness :
  get_base_url "https://Blog.Example:8080" = Ok "https://Blog.Example:8080"
  ∧ is_prefix "https://Blog.Example:8080"
      ("https" +:+ "://" +:+ remove_chars is_unsafe "Blog.Example:8080/a/b?x=1#y").
Proof.
  apply (get_base_url_fixed "https" "Blog.Example:8080/a/b?x=1#y");
    [by right|by vm_compute].
Defined.

(** X4.  A key holds no query and no fragment: neither '?' nor '#' occurs in
    what [normalize_url] returns. *)
Theorem key_has_no_query_or_fragment (s k : string) :
  normalize_url s = Ok k →
  has_char "?" k = false ∧ has_char "#" k = false.
Proof.
  intros Hk. destruct (decide (s = "")) as [-> | Hne].
  { by injection Hk as <-. }
  destruct (normalize_url_shape s Hne) as (sch & r & Hs & Hn & _).
  rewrite Hn in Hk. unfold http_key in Hk.
  destruct (unbalanced_brackets (http_authority r)); [done|].
  injection Hk as <-. fold (key_host r).
  assert (is_prefix (rstrip (eqc "/") (http_path r)) (http_path r)) as Pp
    by apply rstrip_prefix.
  split; apply has_char_key; try done.
  - by apply key_host_no_delim; [|apply eqc_lower_query|].
  - apply all_not_has. eapply all_chars_prefix; [exact Pp|].
    apply http_path_no_query.
  - by apply key_host_no_delim; [|apply eqc_lower_hash|].
  - apply all_not_has. eapply all_chars_prefix; [exact Pp|].
    apply http_path_no_fragment.
Qed.

Lemma key_has_no_query_or_fragment_witness :
  has_char "?" "https://example.com/Blog" = false
  ∧ has_char "#" "https://example.com/Blog" = false.
Proof.
  by apply (key_has_no_query_or_fragment
              "https://WWW.Example.COM/Blog/?page=2#top").
Defined.



(** X23.  A domain returned by [get_domain] is in lower case and holds
    none of the characters '/', '?' and '#'. *)
Theorem get_domain_is_clean (s d : string) :
  get_domain s = Ok d →
  lower d = d
  ∧ has_char "/" d = false ∧ has_char "?" d = false ∧ has_char "#" d = false.
Proof.
  destruct (decide (s = "")) as [-> | Hne].
  { by intros [= <-]. }
  destruct (normalize_url_shape s Hne) as (sch & r & Hs & Hn & _).
  rewrite (get_domain_of_key _ _ _ Hs Hn).
  destruct (unbalanced_brackets (http_authority r)); [done|].
  intros [= <-]. split; [apply key_host_lower|].
  split; [|split].
  - by apply key_host_no_delim; [|apply eqc_lower_slash|].
  - by apply key_host_no_delim; [|apply eqc_lower_query|].
  - by apply key_host_no_delim; [|apply eqc_lower_hash|].
Qed.

Lemma get_domain_is_clean_witness :
  lower "blog.example:8080" = "blog.example:8080"
  ∧ has_char "/" "blog.example:8080" = false
  ∧ has_char "?" "blog.example:8080" = false
  ∧ has_char "#" "blog.example:8080" = false.
Proof.
  by apply (get_domain_is_clean "https://WWW.Blog.Example:8080/a?b#c").
Defined.

End SiteTheorems.

(** ** More properties of the queue and the node store *)

Section BatchTheorems.



(** X7.  Taking a batch loses and repeats nothing: on a non-empty queue the
    batch followed by the queue left in the file is the queue that was read,
    for every batch size, negative ones included; the node store is not
    touched; and for a batch size of zero or more the batch holds that many
    entries, or the whole queue when it is shorter.  On an empty queue
    nothing is taken and nothing written. *)
Theorem take_batch_partitions (batch_size : Z) (fs : files) :
  match take_batch batch_size fs with
  | None => load_queue fs = []
  | Some (batch, fs') =>
      load_queue fs ≠ []
      ∧ batch ++ load_queue fs' = load_queue fs
      ∧ blogs_jsonl fs' = blogs_jsonl fs
      ∧ ((0 ≤ batch_size)%Z →
         length batch = Nat.min (Z.to_nat batch_size) (length (load_queue fs)))
  end.
Proof.
  unfold take_batch. case_bool_decide as Hq; [done|].
  split; [done|]. rewrite load_queue_saved.
  - split; [apply slice_app|]. split; [done|]. intros Hn.
    unfold slice_to. destruct (Z.ltb_spec batch_size 0); [lia|].
    apply length_firstn.
  - intros u Hu. apply (load_queue_entry fs).
    unfold slice_from in Hu. destruct (batch_size <? 0)%Z;
      by apply (subseteq_drop _ _ _ Hu).
Qed.



(** X9.  A site whose record has been saved is not queued again: after
    [save_blog] no call of [add_to_queue] accepts the key of the saved
    record, and the record is the last line of the node store. *)
Theorem saved_blog_is_not_queued (blog : gmap string json) (k : string)
    (urls new : list string) (fs fs' : files) :
  blog_key blog = Ok k →
  add_to_queue urls (save_blog blog fs) = Ok (new, fs') →
  (k ∉ new) ∧ blogs_jsonl fs' = blogs_jsonl fs ++ [Blog blog].
Proof.
  intros Hk. unfold add_to_queue, load_seen_urls, save_blog. simpl.
  rewrite load_seen_urls_from_app.
  destruct (load_seen_urls_from (blogs_jsonl fs) ∅) as [seen|e]; [|done].
  simpl. fold (blog_key blog). rewrite Hk. simpl.
  destruct (add_loop _ _ _ _) as [out|e] eqn:Hloop; [|done]. simpl.
  intros [= <- <-].
  split; [|by case_bool_decide].
  destruct (add_loop_keys _ _ _ _ _ Hloop) as [keys Hkeys].
  rewrite (add_loop_spec _ _ _ Hkeys) in Hloop. injection Hloop as <-. simpl.
  rewrite elem_of_first_occurrences, list_elem_of_filter.
  intros [(_ & Hs & _) _]. apply Hs. apply elem_of_union. left.
  by apply elem_of_singleton.
Qed.

Lemma saved_blog_is_not_queued_witness :
  ("https://a.example" ∉ ["https://b.example"])
  ∧ blogs_jsonl (mkFiles (blogs_jsonl sample_store ++ [Blog hexo_record])
                   ["https://queued.example"; "https://b.example"])
    = blogs_jsonl sample_store ++ [Blog hexo_record].
Proof.
  apply (saved_blog_is_not_queued hexo_record "https://a.example"
           ["A.example/"; "b.example"] ["https://b.example"] sample_store);
    by vm_compute.
Defined.

(** X10.  On a node store that [load_seen_urls] reads without an exception,
    the queue passes of deduplicate.py and dedupe_data.py take as scraped
    exactly the seen keys other than the empty one. *)
Theorem scraped_urls_are_seen (fs : files) (seen : gset string) :
  load_seen_urls fs = Ok seen →
  scraped_urls fs = seen ∖ {[""]}.
Proof.
  intros H. unfold scraped_urls.
  rewrite <- (scraped_urls_from_seen _ ∅ seen H). by f_equal.
Qed.

Lemma scraped_urls_are_seen_witness :
  scraped_urls sample_store = ({["https://seen.example"]} ∪ ∅) ∖ {[""]}.
Proof.
  apply scraped_urls_are_seen.
  unfold load_seen_urls, sample_store. cbn [blogs_jsonl load_seen_urls_from].
  assert (normalize_url_value
            (get_default {["url" := JStr "https://seen.example/"]} "url"
               (JStr ""))
          = Ok "https://seen.example") as -> by (by vm_compute).
  reflexivity.
Defined.

(** X11.  The queue passes of deduplicate.py and dedupe_data.py write the
    same queue file and raise on the same inputs. *)
Theorem queue_passes_agree (fs : files) :
  dedupe_queue fs
  = match deduplicate_queue fs with
    | Ok (_, fs') => Ok fs'
    | Raise e => Raise e
    end.
Proof.
  unfold dedupe_queue, deduplicate_queue. rewrite dedupe_queue_loop_same.
  by destruct (deduplicate_queue_loop _ _ _ _).
Qed.

(** X12.  The queue pass writes what it returns and leaves the node store
    alone.  The queue it returns is duplicate-free and holds exactly the
    non-empty keys of the queued entries that are not keys of the node
    store, in the order in which they first appear in the queue. *)
Theorem deduplicate_queue_keeps (fs fs' : files) (unique_queue : list string) :
  deduplicate_queue fs = Ok (unique_queue, fs') →
  blogs_jsonl fs' = blogs_jsonl fs
  ∧ queue_txt fs' = unique_queue
  ∧ NoDup unique_queue
  ∧ (∀ k, k ∈ unique_queue ↔
       k ≠ "" ∧ (k ∉ scraped_urls fs)
       ∧ ∃ u, u ∈ load_queue fs ∧ normalize_url u = Ok k)
  ∧ ∃ keys, normalize_all (load_queue fs) = Ok keys
            ∧ unique_queue
              = first_occurrences
                  (filter (fun k => k ≠ "" ∧ (k ∉ scraped_urls fs)) keys).
Proof.
  unfold deduplicate_queue. rewrite deduplicate_queue_loop_add.
  fold (load_queue fs).
  destruct (add_loop _ _ _ _) as [out|e] eqn:Hloop; [|done]. simpl.
  intros [= <- <-]. split; [done|]. split; [done|].
  destruct (add_loop_keys _ _ _ _ _ Hloop) as [keys Hkeys].
  rewrite (add_loop_spec _ _ _ Hkeys) in Hloop. injection Hloop as <-.
  simpl. split; [apply NoDup_first_occurrences|]. split.
  - intros k. rewrite elem_of_first_occurrences, list_elem_of_filter.
    rewrite (normalize_all_elem _ _ Hkeys k). split.
    + intros ((? & ? & _) & ?). done.
    + intros (? & ? & ?). split; [|done]. split; [done|]. split; [done|].
      apply not_elem_of_empty.
  - exists keys. split; [done|]. f_equal. apply list_filter_iff. intros k.
    split; [by intros (? & ? & _)|]. intros (? & ?).
    split; [done|]. split; [done|]. apply not_elem_of_empty.
Qed.

Lemma deduplicate_queue_keeps_witness :
  blogs_jsonl (mkFiles (blogs_jsonl untidy_store)
                 ["https://a.example"; "https://b.example"])
  = blogs_jsonl untidy_store
  ∧ queue_txt (mkFiles (blogs_jsonl untidy_store)
                 ["https://a.example"; "https://b.example"])
    = ["https://a.example"; "https://b.example"]
  ∧ NoDup ["https://a.example"; "https://b.example"]
  ∧ (∀ k, k ∈ ["https://a.example"; "https://b.example"] ↔
       k ≠ "" ∧ (k ∉ scraped_urls untidy_store)
       ∧ ∃ u, u ∈ load_queue untidy_store ∧ normalize_url u = Ok k)
  ∧ ∃ keys, normalize_all (load_queue untidy_store) = Ok keys
            ∧ ["https://a.example"; "https://b.example"]
              = first_occurrences
                  (filter (fun k => k ≠ "" ∧ (k ∉ scraped_urls untidy_store))
                     keys).
Proof. apply (deduplicate_queue_keeps untidy_store). by vm_compute. Defined.

(** X13.  Both node store passes write one record for every non-empty key
    of the store, in the order in which the keys first appear: no site is
    lost, and the two utilities agree on the keys they write. *)
Theorem dedup_keeps_every_key (lines : list store_line) :
  (∀ out, deduplicate_blogs lines = Ok out →
     out.*1 = first_occurrences (line_keys lines))
  ∧ (∀ out, dedupe_blogs lines = Ok out →
       out.*1 = first_occurrences (line_keys lines))
  ∧ (∀ out k b,
       deduplicate_blogs lines = Ok out ∨ dedupe_blogs lines = Ok out →
       Blog b ∈ lines → blog_key b = Ok k → k ≠ "" → k ∈ out.*1).
Proof.
  assert (∀ replaces out, dedup_loop replaces lines [] = Ok out →
            out.*1 = first_occurrences (line_keys lines)) as Hloop.
  { intros replaces out H. rewrite (dedup_loop_keys _ _ _ _ H). simpl.
    apply filter_not_in_nil. }
  assert (∀ out, deduplicate_blogs lines = Ok out →
     out.*1 = first_occurrences (line_keys lines)) as H1.
  { intros out. unfold deduplicate_blogs.
    destruct (dedup_loop deduplicate_replaces lines []) as [d|e] eqn:Hd; [|done].
    intros [= <-]. rewrite set_url_keys. by apply (Hloop deduplicate_replaces). }
  split; [done|]. split; [apply Hloop|].
  intros out k b Hrun Hb Hk Hne.
  assert (out.*1 = first_occurrences (line_keys lines)) as ->.
  { destruct Hrun as [H|H]; [by apply H1|by apply (Hloop dedupe_replaces)]. }
  apply elem_of_first_occurrences, line_keys_elem. split; [done|]. by exists b.
Qed.

Lemma dedup_keeps_every_key_witness :
  ["https://b.example"; "https://a.example"]
  = first_occurrences (line_keys repeated_store).
Proof.
  apply (proj1 (dedup_keeps_every_key repeated_store)
           [("https://b.example",
             {["url" := JStr "https://b.example"; "name" := JStr "B"]});
            ("https://a.example", {["url" := JStr "https://a.example"]})]).
  by vm_compute.
Defined.

End BatchTheorems.

(** ** Properties of the edge store *)

Section EdgeTheorems.

(** X14.  The edge passes differ by the open edges only: deduplicate.py
    returns the readings of the data rows that have both endpoints, and
    writes exactly the rows dedupe_data.py writes except those whose source
    or target is empty; and the two passes raise on the same files. *)
Theorem edge_passes_differ_by_open_edges (rows : list (list string)) :
  (∀ out2, dedupe_edges (Some rows) = Ok (Some out2) →
     ∃ U out1, deduplicate_edges (Some rows) = Ok (Some U, Some out1)
       ∧ (∀ e, e ∈ U ↔ has_endpoints e
                       ∧ ∃ row, row ∈ rows ∧ row ≠ [] ∧ read_edge row = Ok e)
       ∧ (∀ r, r ∈ out1 ↔ r ∈ out2 ∧ r !! 0%nat ≠ Some ""
                                    ∧ r !! 1%nat ≠ Some ""))
  ∧ (∀ e, dedupe_edges (Some rows) = Raise e
          ↔ deduplicate_edges (Some rows) = Raise e).
Proof.
  unfold dedupe_edges, deduplicate_edges.
  pose proof (deduplicate_edges_loop_filter rows ∅ ∅ filter_empty_edges) as H.
  destruct (dedupe_edges_loop rows ∅) as [E|err] eqn:HE; rewrite H; simpl.
  - split; [|by intros e; split]. intros out2 [= <-].
    exists (filter has_endpoints E),
      (edge_row <$> elements (filter has_endpoints E)).
    split; [done|]. split.
    + intros e. rewrite elem_of_filter, (dedupe_edges_loop_spec _ _ _ HE e).
      split.
      * intros [? [?%elem_of_empty|?]]; done.
      * intros [? ?]. split; [done|by right].
    + intros r. rewrite !list_elem_of_fmap. split.
      * intros (e & -> & He).
        apply elem_of_elements, elem_of_filter in He as [[H1 H2] He].
        split; [exists e; split; [done|by apply elem_of_elements]|].
        simpl. split; congruence.
      * intros ((e & -> & He) & H1 & H2). exists e. split; [done|].
        apply elem_of_elements, elem_of_filter.
        split; [|by apply elem_of_elements].
        simpl in *. split; congruence.
  - split; [done|]. intros e. split; by intros [= ->].
Qed.

Lemma edge_passes_differ_by_open_edges_witness :
  ∃ U out1, deduplicate_edges (Some sample_edges) = Ok (Some U, Some out1)
    ∧ (∀ e, e ∈ U ↔ has_endpoints e
                    ∧ ∃ row, row ∈ sample_edges ∧ row ≠ []
                             ∧ read_edge row = Ok e)
    ∧ (∀ r, r ∈ out1 ↔
         r ∈ edge_row <$> [("http://a.example", "", Some "friend_link");
                           ("https://a.example", "https://b.example",
                            Some "friend_link")]
         ∧ r !! 0%nat ≠ Some "" ∧ r !! 1%nat ≠ Some "").
Proof.
  apply (proj1 (edge_passes_differ_by_open_edges sample_edges)).
  vm_compute. reflexivity.
Defined.



End EdgeTheorems.

(** ** Properties of the fetch result and of the circle scraper *)

Section CircleTheorems.
Import Fetch.




(** X18.  What a circle page yields.  The world after [scrape_circle] is the
    world after its one fetch.  A circle that is returned carries the name
    and URL given, a duplicate-free member list and its length; it has no
    member when the fetch failed; and each member is "http://" or "https://"
    followed by the domain of a link of the fetched page that passes the
    blog-likelihood filter and lies outside the domain of the circle.  The
    call ends in a TypeError only when the fetch failed with an empty error
    text. *)
Theorem scrape_circle_members (url name : string) (w : world) :
  (scrape_circle url name w).2 = (Scraper.fetch_url url w).2
  ∧ (∀ c, (scrape_circle url name w).1 = Returns c →
       circle_name c = name ∧ circle_url c = url
       ∧ member_count c = length (members c)
       ∧ NoDup (members c)
       ∧ (failed (Scraper.fetch_url url w).1 = true → members c = [])
       ∧ ∀ m, m ∈ members c →
           ∃ html headers href link,
             (Scraper.fetch_url url w).1 = (Some html, Some headers, None)
             ∧ href ∈ hrefs_of html ∧ skipped_link href = false
             ∧ urljoin url href = Ok link
             ∧ member_of url link m)
  ∧ ((scrape_circle url name w).1 = TypeError →
       (Scraper.fetch_url url w).1 = (None, None, Some "")).
Proof.
  pose proof (scraper_fetch_one_sided url w) as Hside.
  unfold scrape_circle, mbind, io_bind, mret, io_ret.
  destruct (Scraper.fetch_url url w) as [[[html headers] error] w'].
  simpl in *. split; [done|].
  destruct Hside as [(t & h & [= -> -> ->])|(e & [= -> -> ->])]; simpl.
  - destruct (extract_links_from_html t url) as [links|err] eqn:Hlinks.
    2: { split; [done|done]. }
    destruct (circle_members url links []) as [ms|err] eqn:Hms.
    2: { split; [done|done]. }
    split; [|done]. intros c [= <-]. simpl.
    destruct (circle_members_spec _ _ _ _ Hms) as [Hnd Hin]; [constructor|].
    do 4 (split; [done|]). split; [done|]. intros m Hm.
    destruct (Hin m Hm) as [?%elem_of_nil|(link & Hlink & Hmem)]; [done|].
    apply (extract_links_loop_elem _ _ _ _ Hlinks) in Hlink
      as [?%elem_of_nil|(href & Hh & Hs & Hj)]; [done|].
    by exists t, h, href, link.
  - case_bool_decide as He; simpl.
    + subst e. split; [done|done].
    + split; [|done]. intros c [= <-]. simpl.
      do 3 (split; [done|]). split; [constructor|]. split; [done|].
      by intros m ?%elem_of_nil.
Qed.

Lemma scrape_circle_members_witness :
  member_count (mkCircle "Circle" "https://circle.example/members.html" 2
                  ["https://alice.example"; "http://alice.example"]) = 2
  ∧ NoDup ["https://alice.example"; "http://alice.example"].
Proof.
  destruct (scrape_circle_members "https://circle.example/members.html"
              "Circle" circle_world) as (_ & H & _).
  destruct (H (mkCircle "Circle" "https://circle.example/members.html" 2
                 ["https://alice.example"; "http://alice.example"]))
    as (_ & _ & Hcount & Hnd & _); [by vm_compute|].
  by split.
Defined.

End CircleTheorems.

(** ** Properties of the friend-links page and of the signature tables *)

Section PageTheorems.
Import Re.

(** X19.  The friends page returned is the resolution of the first usable
    href among the matches of the first pattern and then of the second: it
    is never that of an empty href, of a fragment or of a javascript link,
    and the answer is [None] exactly when no match is usable. *)
Theorem find_friend_links_page_first (html base_url : string) :
  (∀ page, find_friend_links_page html base_url = Ok (Some page) →
     ∃ pre m post,
       friend_page_matches html = pre ++ m :: post
       ∧ (∀ x, x ∈ pre → usable_page x = false)
       ∧ m ≠ "" ∧ startswith "#" m = false
       ∧ startswith "javascript:" m = false
       ∧ urljoin base_url m = Ok page)
  ∧ (find_friend_links_page html base_url = Ok None
     ↔ ∀ x, x ∈ friend_page_matches html → usable_page x = false).
Proof.
  unfold find_friend_links_page. rewrite find_page_loop_spec.
  fold (friend_page_matches html).
  destruct (first_usable (friend_page_matches html)) as [m|] eqn:Hfirst.
  - split.
    + intros page Hpage.
      destruct (first_usable_Some _ _ Hfirst) as (pre & post & Hl & Hm & Hpre).
      exists pre, m, post. split; [done|]. split; [done|].
      unfold usable_page in Hm. apply andb_true_iff in Hm as [H1 H2].
      apply negb_true_iff, bool_decide_eq_false in H1.
      apply negb_true_iff, orb_false_iff in H2 as [H2 H3].
      do 3 (split; [done|]).
      by destruct (urljoin base_url m) as [p|e]; [injection Hpage as ->|].
    + split.
      * intros H. by destruct (urljoin base_url m).
      * intros H%first_usable_None. congruence.
  - split; [done|]. split; [|done]. intros _. by apply first_usable_None.
Qed.

Lemma find_friend_links_page_first_witness :
  ∃ pre m post,
    friend_page_matches page_with_friends_link = pre ++ m :: post
    ∧ (∀ x, x ∈ pre → usable_page x = false)
    ∧ m ≠ "" ∧ startswith "#" m = false
    ∧ startswith "javascript:" m = false
    ∧ urljoin "https://mine.example/blog/" m
      = Ok "https://mine.example/Friends/".
Proof.
  apply (proj1 (find_friend_links_page_first page_with_friends_link
                  "https://mine.example/blog/")).
  by vm_compute.
Defined.

(** X20.  [detect_ssg] names a generator of the table or answers "unknown",
    and it answers "unknown" exactly when no entry of the table matches the
    page, by its meta patterns or by its body signatures. *)
Theorem detect_ssg_range (html : string) :
  detect_ssg html ∈ "unknown" :: (ssg_name <$> SSG_PATTERNS)
  ∧ (detect_ssg html = "unknown"
     ↔ ∀ e, e ∈ SSG_PATTERNS → ssg_matches (generator_of html) html e = false).
Proof.
  split; [apply detect_ssg_loop_range|]. split.
  - unfold detect_ssg. intros Hu e He.
    destruct (ssg_matches (generator_of html) html e) eqn:Hm; [|done].
    exfalso.
    assert ("unknown" ∉ ssg_name <$> SSG_PATTERNS) as Hnot
      by (apply (bool_decide_eq_false_1 _); by vm_compute).
    apply Hnot. rewrite <- Hu. apply detect_ssg_loop_match. by exists e.
  - apply detect_ssg_loop_none.
Qed.

(** X21.  The storage and identity hints of [detect_comment_system] are
    given together, and exactly when a platform of the table is named, that
    is when the type is neither "none" nor "unknown"; they are then the
    hints of an entry one of whose signatures matches the page. *)
Theorem detect_comment_system_hints (html : string) :
  (storage (detect_comment_system html) = None
   ↔ identity (detect_comment_system html) = None)
  ∧ (storage (detect_comment_system html) = None
     ↔ type (detect_comment_system html) = "none"
       ∨ type (detect_comment_system html) = "unknown")
  ∧ (∀ s, storage (detect_comment_system html) = Some s →
       ∃ e, e ∈ COMMENT_PATTERNS
            ∧ any_search (signatures e) html = true
            ∧ detect_comment_system html
              = mkSystem (system_name e) (Some (entry_storage e))
                  (Some (entry_identity e))).
Proof.
  unfold detect_comment_system.
  destruct (detect_comment_loop COMMENT_PATTERNS html) as [r|] eqn:Hloop.
  - destruct (detect_comment_loop_entry _ _ _ Hloop) as (e & He & Hm & ->).
    simpl.
    assert (system_name e ∈ system_name <$> COMMENT_PATTERNS) as Hname
      by (apply list_elem_of_fmap; by exists e).
    assert ("none" ∉ system_name <$> COMMENT_PATTERNS) as Hnone
      by (apply (bool_decide_eq_false_1 _); by vm_compute).
    assert ("unknown" ∉ system_name <$> COMMENT_PATTERNS) as Hunknown
      by (apply (bool_decide_eq_false_1 _); by vm_compute).
    split; [done|]. split.
    + split; [done|]. intros [H|H]; rewrite H in Hname; done.
    + intros s _. by exists e.
  - destruct (found IGNORECASE comment_marker html); simpl.
    + split; [done|]. split; [|done]. split; [by right|done].
    + split; [done|]. split; [|done]. split; [by left|done].
Qed.

End PageTheorems.

(** ** Properties of the external links of a page *)

Section ExternalTheorems.

(** X22.  [extract_external_links] returns a duplicate-free list without
    empty entries that holds exactly the base URLs, as [get_base_url] gives
    them, of the resolutions of the hrefs that do not begin with '#',
    'javascript:', 'mailto:' or 'tel:', that [urljoin] accepts, whose domain
    is non-empty and is not the domain of the page, and that pass the
    blog-likelihood filter; on an empty page it returns the empty list. *)
Theorem extract_external_links_exact (html base_url : string)
    (links : list string) :
  extract_external_links html base_url = Ok links →
  NoDup links
  ∧ (∀ l, l ∈ links → l ≠ "")
  ∧ (∀ l, l ∈ links ↔
       ∃ href, href ∈ hrefs_of html ∧ external_link base_url href l)
  ∧ (html = "" → links = []).
Proof.
  unfold extract_external_links. case_bool_decide as Hhtml.
  - intros [= <-]. split; [constructor|]. split; [by intros l ?%elem_of_nil|].
    split; [|done]. intros l. subst html. split; [by intros ?%elem_of_nil|].
    by intros (h & ?%elem_of_nil & _).
  - destruct (get_domain base_url) as [bd|e] eqn:Hbd; [|done]. simpl.
    intros Hrun.
    destruct (external_links_loop_spec _ _ _ Hbd _ _ Hrun) as (H1 & H2 & H3).
    { constructor. }
    { by intros l ?%elem_of_nil. }
    split; [done|]. split; [done|]. split; [|done].
    intros l. rewrite H3. split; [intros [?%elem_of_nil|?]; done|by right].
Qed.

Lemma extract_external_links_exact_witness :
  NoDup ["https://alice.example"; "http://www.alice.example";
         "https://ALICE.example"]
  ∧ (∀ l, l ∈ ["https://alice.example"; "http://www.alice.example";
               "https://ALICE.example"] → l ≠ "")
  ∧ (∀ l, l ∈ ["https://alice.example"; "http://www.alice.example";
               "https://ALICE.example"] ↔
       ∃ href, href ∈ hrefs_of circle_page
               ∧ external_link "https://circle.example/members.html" href l)
  ∧ (circle_page = "" →
     ["https://alice.example"; "http://www.alice.example";
      "https://ALICE.example"] = []).
Proof.
  apply (extract_external_links_exact circle_page
           "https://circle.example/members.html").
  by vm_compute.
Defined.

End ExternalTheorems.
